(** * H1 Health Analytics: the ETL transform and the charge analyses

    A shallow embedding of [src/etl.py] (class [HealthInsuranceETL]) and
    [src/analysis.py] (class [HealthInsuranceAnalyzer]).

    Conventions of the embedding.

    - A DataFrame read from the insurance CSV is a list of rows over the
      seven raw columns; a cell that pandas holds as NaN/None is [None].
    - Numbers are exact: a float64 cell is the rational ([Q]) it holds
      and the results of float arithmetic live in [float64], which adds
      the three special values NaN, +inf and -inf to the rationals.
      Rounding error, overflow and the sign of zero are not modelled.
      Where the machine formats decide what the code does they are
      modelled: the sum of an int64 column wraps around, and the
      quotient that [identify_high_risk_profiles] hands to a range check
      is zero when it is too small for a float64 and an error when it is
      too large.
    - A frame carries the dtypes of its columns as far as the code looks
      at them ([select_dtypes]): whether the numeric columns of the file
      were read as numbers or, from a file with a header line only, as
      objects.
    - The pandas operations the two classes call ([dropna], [astype],
      [cut], [groupby(...).agg], [mean], [quantile], [corr], [round]) are
      modelled by their documented behaviour, next to the method that
      calls them.
    - Python exceptions are values of [exn]; a method that may raise
      returns a [result].
    - Object identity matters for [transform] (it copies its input and
      then assigns columns in place), so the methods are also given over
      an explicit store of DataFrame objects. *)

From Stdlib Require Import ZArith QArith Qround Qminmax List String Bool Lia Lqa.
From Stdlib Require Import Permutation Sorting Orders Mergesort.
From Stdlib Require Import Ascii.
Import ListNotations.

Local Open Scope Z_scope.
Local Open Scope Q_scope.

(* ================================================================== *)
(** ** Numbers *)

(** The values a float64 computation can produce. *)
Inductive float64 : Type :=
| NaN
| PosInf
| NegInf
| Finite (q : Q).

Definition Qltb (a b : Q) : bool := negb (Qle_bool b a).

(** An infinity keeps or flips its sign with the sign of the other
    operand; zero times or over an infinity is NaN. *)
Definition signed_inf (positive : bool) : float64 :=
  if positive then PosInf else NegInf.

Definition fneg (x : float64) : float64 :=
  match x with
  | NaN => NaN
  | PosInf => NegInf
  | NegInf => PosInf
  | Finite q => Finite (- q)
  end.

Definition fadd (x y : float64) : float64 :=
  match x, y with
  | NaN, _ | _, NaN => NaN
  | PosInf, NegInf | NegInf, PosInf => NaN
  | PosInf, _ | _, PosInf => PosInf
  | NegInf, _ | _, NegInf => NegInf
  | Finite a, Finite b => Finite (a + b)
  end.

Definition fsub (x y : float64) : float64 := fadd x (fneg y).

Definition fmul (x y : float64) : float64 :=
  match x, y with
  | NaN, _ | _, NaN => NaN
  | Finite a, Finite b => Finite (a * b)
  | Finite a, PosInf | PosInf, Finite a =>
      if Qeq_bool a 0 then NaN else signed_inf (Qltb 0 a)
  | Finite a, NegInf | NegInf, Finite a =>
      if Qeq_bool a 0 then NaN else signed_inf (Qltb a 0)
  | PosInf, PosInf | NegInf, NegInf => PosInf
  | PosInf, NegInf | NegInf, PosInf => NegInf
  end.

Definition fdiv (x y : float64) : float64 :=
  match x, y with
  | NaN, _ | _, NaN => NaN
  | Finite a, Finite b =>
      if Qeq_bool b 0
      then (if Qeq_bool a 0 then NaN else signed_inf (Qltb 0 a))
      else Finite (a / b)
  | Finite _, _ => Finite 0
  | PosInf, Finite b => signed_inf (Qle_bool 0 b)
  | NegInf, Finite b => signed_inf (Qltb b 0)
  | _, _ => NaN
  end.

Definition is_nan (x : float64) : bool :=
  match x with NaN => true | _ => false end.

Definition isfinite (x : float64) : option Q :=
  match x with Finite q => Some q | _ => None end.

(** [x >= y] on floats: false as soon as one side is NaN. *)
Definition fge (x y : float64) : bool :=
  match x, y with
  | NaN, _ | _, NaN => false
  | PosInf, _ => true
  | _, NegInf => true
  | _, PosInf => false
  | NegInf, _ => false
  | Finite a, Finite b => Qle_bool b a
  end.

(** int64 arithmetic wraps around: a result is taken modulo 2^64 into
    [-2^63, 2^63). *)
Definition int64_max : Z := 9223372036854775807%Z.

Definition wrap_int64 (z : Z) : Z :=
  ((z + 9223372036854775808) mod 18446744073709551616 - 9223372036854775808)%Z.

Definition int64_add (a b : Z) : Z := wrap_int64 (a + b).

(** Half of the smallest positive float64, 2^-1074: a quotient of at
    most this magnitude is rounded to zero (to -0.0 when it is negative,
    which compares as zero). *)
Definition float64_underflow : Q := 1 # (2 ^ 1075).

(** Half-way between the largest float64, 2^1024 - 2^971, and 2^1024:
    a quotient of at least this magnitude is beyond the float64 range. *)
Definition float64_overflow : Q := inject_Z (2 ^ 1024 - 2 ^ 970).

(** A quotient as the float division leaves it: zero when it is too
    small for a float64, itself otherwise. *)
Definition underflow (q : Q) : Q :=
  if (Qle_bool (- float64_underflow) q && Qle_bool q float64_underflow)%bool
  then 0
  else q.

Definition Qsum (l : list Q) : Q := fold_right Qplus 0 l.

Definition Qlen (l : list Q) : Q := inject_Z (Z.of_nat (List.length l)).

(** [Series.mean()]: NaN on an empty series. *)
Definition mean (l : list Q) : float64 :=
  match l with
  | [] => NaN
  | _ => Finite (Qsum l / Qlen l)
  end.

(* ================================================================== *)
(** ** Exceptions *)

Inductive exn : Type :=
| ValueError (msg : string)
| ZeroDivisionError (msg : string)
| OverflowError (msg : string).

Inductive result (A : Type) : Type :=
| Ok (a : A)
| Raise (e : exn).
Arguments Ok {A} a.
Arguments Raise {A} e.

(* ================================================================== *)
(** ** The data model *)

(** A row of the raw DataFrame: the seven CSV columns, each cell possibly
    missing. *)
Record RawRecord : Type := mkRaw {
  raw_age : option Z;
  raw_sex : option string;
  raw_bmi : option Q;
  raw_children : option Z;
  raw_smoker : option string;
  raw_region : option string;
  raw_charges : option Q
}.

(** A row without missing cells. *)
Record CleanRecord : Type := mkClean {
  age : Z;
  sex : string;
  bmi : Q;
  children : Z;
  smoker : string;
  region : string;
  charges : Q
}.

(** A row of the processed DataFrame: the seven raw columns and the four
    derived ones.  A category cell that [pd.cut] left empty is [None]. *)
Record ProcessedRecord : Type := mkProcessed {
  base :> CleanRecord;
  bmi_category : option string;
  age_group : option string;
  is_smoker : Z;
  charges_per_person : float64
}.

(** The processed DataFrame: its rows, and the categories of the three
    columns that [astype('category')] typed.  The categories of
    [bmi_category] and [age_group] are the label lists given to [pd.cut].
    [numeric] records the dtype of the columns [age], [bmi], [children]
    and [charges]: a number dtype (int64 or float64) when [true], object
    when [false]. *)
Record ProcessedFrame : Type := mkFrame {
  rows : list ProcessedRecord;
  sex_categories : list string;
  smoker_categories : list string;
  region_categories : list string;
  numeric : bool
}.

(* ================================================================== *)
(** ** pandas: dropna, astype('category'), cut *)

(** [notna] on every cell of a row: the row without its option wrappers,
    or [None] when a cell is missing. *)
Definition notna (r : RawRecord) : option CleanRecord :=
  match raw_age r, raw_sex r, raw_bmi r, raw_children r,
        raw_smoker r, raw_region r, raw_charges r with
  | Some a, Some s, Some b, Some c, Some k, Some g, Some ch =>
      Some (mkClean a s b c k g ch)
  | _, _, _, _, _, _, _ => None
  end.

(** [DataFrame.dropna()]: keep, in order, the rows with no missing cell. *)
Fixpoint dropna (data : list RawRecord) : list CleanRecord :=
  match data with
  | [] => []
  | r :: rest =>
      match notna r with
      | Some c => c :: dropna rest
      | None => dropna rest
      end
  end.

Module StringOrder <: TotalLeBool.
Definition t := string.
Definition leb := String.leb.
Definition leb_total : forall a b, leb a b = true \/ leb b a = true :=
  String.leb_total.
End StringOrder.

Module StringSort := Sort StringOrder.

(** [Series.astype('category')] infers the categories: the distinct values
    of the column, sorted. *)
Definition categories_of (values : list string) : list string :=
  StringSort.sort (nodup string_dec values).

(** [bins.searchsorted(x, side='left')] on increasing bins: the number of
    bin edges strictly below [x]. *)
Fixpoint searchsorted_left (bins : list Q) (x : Q) : nat :=
  match bins with
  | [] => O
  | b :: rest => if Qltb b x then S (searchsorted_left rest x) else O
  end.

(** [pd.cut(x, bins, labels)] with its defaults [right=True],
    [include_lowest=False]: bucket [i] is [(bins[i], bins[i+1]]]; a value
    at or below the first edge, or above the last, gets no category. *)
Definition cut (x : Q) (bins : list Q) (labels : list string) : option string :=
  let ids := searchsorted_left bins x in
  if (Nat.eqb ids 0 || Nat.eqb ids (List.length bins))%bool
  then None
  else nth_error labels (ids - 1).

(* ================================================================== *)
(** ** HealthInsuranceETL.transform *)

Definition bmi_bins : list Q := [0; 37 # 2; 25; 30; 100].
Definition bmi_labels : list string :=
  ["Underweight"; "Normal"; "Overweight"; "Obese"]%string.

Definition age_bins : list Q := [0; 25; 35; 45; 55; 100].
Definition age_labels : list string :=
  ["18-25"; "26-35"; "36-45"; "46-55"; "56+"]%string.

(** The four column assignments of [transform], on one row (each is an
    element-wise column operation).  [children] is an int64 column, so
    [children + 1] is an int64 sum: it wraps around at 2^63 - 1.  (When a
    cell of the column is missing in the file the column is float64 and
    the sum a float: the same number whenever [children + 1] is in the
    int64 range, rounding apart.) *)
Definition derive (c : CleanRecord) : ProcessedRecord :=
  {| base := c;
     bmi_category := cut (bmi c) bmi_bins bmi_labels;
     age_group := cut (inject_Z (age c)) age_bins age_labels;
     is_smoker := if String.eqb (smoker c) "yes" then 1%Z else 0%Z;
     charges_per_person :=
       fdiv (Finite (charges c)) (Finite (inject_Z (int64_add (children c) 1))) |}.

(** The dtypes [pd.read_csv] infers for the columns [age], [bmi],
    [children] and [charges]: a number dtype as soon as the file has a
    row; object for a file with a header line only, which gives a frame
    without rows. *)
Definition read_numeric (data : list RawRecord) : bool :=
  match data with
  | [] => false
  | _ :: _ => true
  end.

(** Lines 71-95: the three [astype('category')] assignments and the four
    derived columns, on a frame without missing cells whose numeric
    columns have the dtype [numeric]. *)
Definition assign_columns (numeric : bool) (data : list CleanRecord) : ProcessedFrame :=
  {| rows := map derive data;
     sex_categories := categories_of (map sex data);
     smoker_categories := categories_of (map smoker data);
     region_categories := categories_of (map region data);
     numeric := numeric |}.

(** The frame [transform] builds from the (copied) input frame as
    [read_csv] typed it: [dropna], which keeps the dtypes, then the
    column assignments. *)
Definition transform (data : list RawRecord) : ProcessedFrame :=
  let numeric := read_numeric data in
  let data := dropna data in
  assign_columns numeric data.


(* ================================================================== *)
(** ** pandas: rounding, order statistics, group statistics *)

(** Nearest integer, ties to the even neighbour ([numpy.rint]). *)
Definition round_half_even (q : Q) : Z :=
  let f := Qfloor q in
  match ((q - inject_Z f) ?= (1 # 2))%Q with
  | Lt => f
  | Gt => (f + 1)%Z
  | Eq => if Z.even f then f else (f + 1)%Z
  end.

(** [numpy.round(x, d)] with [scale = 10^d]: scale, round to the nearest
    integer, scale back.  The quotient is kept in lowest terms.  The
    argument is the number the float64 cell holds: a decimal of the file
    that is no float64, such as 0.575, is held as its nearest float64,
    here just below the tie. *)
Definition Qround (scale : positive) (q : Q) : Q :=
  Qred (round_half_even (q * inject_Z (Zpos scale)) # scale).

Definition fround (scale : positive) (x : float64) : float64 :=
  match x with
  | Finite q => Finite (Qround scale q)
  | other => other
  end.

(** The nearest integer to the square root of [t >= 0], ties to even.
    With [f = floor (sqrt t)], the root lies below, at or above [f + 1/2]
    as [t] compares with [(f + 1/2)^2]. *)
Definition round_sqrt (t : Q) : Z :=
  let f := Z.sqrt (Qfloor t) in
  let half := (inject_Z (2 * f + 1) / 2)%Q in
  match (t ?= half * half)%Q with
  | Lt => f
  | Gt => (f + 1)%Z
  | Eq => if Z.even f then f else (f + 1)%Z
  end.

(** [round(sqrt v, d)] for [v >= 0] and [scale = 10^d]: a square root is
    not a rational in general, but its rounding is, and that is all the
    analyses return. *)
Definition Qround_sqrt (scale : positive) (v : Q) : Q :=
  Qred (round_sqrt (v * inject_Z (Zpos scale * Zpos scale)) # scale).

Module QOrder <: TotalLeBool.
Definition t := Q.
Definition leb := Qle_bool.
Definition leb_total : forall a b, leb a b = true \/ leb b a = true.
Proof.
  intros a b. unfold leb. destruct (Qlt_le_dec a b) as [H|H].
  - left. apply Qle_bool_iff. apply Qlt_le_weak. exact H.
  - right. apply Qle_bool_iff. exact H.
Qed.
End QOrder.

Module QSort := Sort QOrder.

(** [Series.min()] and [Series.max()]: NaN on an empty series. *)
Definition Qmin_list (l : list Q) : float64 :=
  match l with
  | [] => NaN
  | x :: rest => Finite (fold_left Qmin rest x)
  end.

Definition Qmax_list (l : list Q) : float64 :=
  match l with
  | [] => NaN
  | x :: rest => Finite (fold_left Qmax rest x)
  end.

(** [Series.median()]: the middle value of the sorted series, or the mean
    of the two middle values. *)
Definition median (l : list Q) : float64 :=
  match l with
  | [] => NaN
  | _ =>
      let s := QSort.sort l in
      let n := List.length s in
      if Nat.even n
      then Finite ((nth (n / 2 - 1) s 0 + nth (n / 2) s 0) / 2)
      else Finite (nth (n / 2) s 0)
  end.

(** The sample variance (ddof = 1) of at least two values. *)
Definition sample_variance (l : list Q) : Q :=
  let m := Qsum l / Qlen l in
  Qsum (map (fun x => (x - m) * (x - m)) l) / (Qlen l - 1).

(** [Series.std().round(d)]: NaN below two values. *)
Definition std_rounded (scale : positive) (l : list Q) : float64 :=
  match l with
  | [] | [_] => NaN
  | _ => Finite (Qround_sqrt scale (sample_variance l))
  end.

(** [numpy.percentile(values, 100 q, method='linear')] on a non-empty
    sample: position [(n - 1) q] in the sorted values, interpolated
    between its two neighbours. *)
Definition percentile_linear (values : list Q) (q : Q) : Q :=
  let s := QSort.sort values in
  let n := Z.of_nat (List.length s) in
  let pos := inject_Z (n - 1) * q in
  let lo := Qfloor pos in
  let hi := Z.min (lo + 1) (n - 1) in
  let gamma := pos - inject_Z lo in
  let a := nth (Z.to_nat lo) s 0 in
  let b := nth (Z.to_nat hi) s 0 in
  a + (b - a) * gamma.

(** [Series.quantile(q)]: [validate_percentile] rejects a [q] outside
    [0, 1] before anything is computed; an empty series gives NaN. *)
Definition quantile (values : list Q) (q : Q) : result float64 :=
  if (Qle_bool 0 q && Qle_bool q 1)%bool
  then Ok (match values with
           | [] => NaN
           | _ => Finite (percentile_linear values q)
           end)
  else Raise (ValueError "percentiles should all be in the interval [0, 1]").

(* ================================================================== *)
(** ** Columns of the processed frame *)

Inductive Column : Type :=
| Age | Sex | Bmi | Children | Smoker | Region | Charges
| BmiCategory | AgeGroup | IsSmoker | ChargesPerPerson.

Definition column_name (c : Column) : string :=
  match c with
  | Age => "age"
  | Sex => "sex"
  | Bmi => "bmi"
  | Children => "children"
  | Smoker => "smoker"
  | Region => "region"
  | Charges => "charges"
  | BmiCategory => "bmi_category"
  | AgeGroup => "age_group"
  | IsSmoker => "is_smoker"
  | ChargesPerPerson => "charges_per_person"
  end.

(** [data.columns], in column order. *)
Definition columns : list Column :=
  [Age; Sex; Bmi; Children; Smoker; Region; Charges;
   BmiCategory; AgeGroup; IsSmoker; ChargesPerPerson].

(** [name in data.columns], with the column found. *)
Definition find_column (name : string) : option Column :=
  find (fun c => String.eqb (column_name c) name) columns.

(** The value of a cell as a group key. *)
Inductive key : Type :=
| KInt (z : Z)
| KFloat (x : float64)
| KStr (s : string).

(** Equal numbers are one key: a rational key is kept in lowest terms. *)
Definition float_key (x : float64) : option key :=
  match x with
  | NaN => None
  | Finite q => Some (KFloat (Finite (Qred q)))
  | inf => Some (KFloat inf)
  end.

Definition category_key (c : option string) : option key :=
  match c with
  | Some s => Some (KStr s)
  | None => None
  end.

(** The key a row contributes to [groupby(column)]; [None] for a null
    cell, which [groupby] leaves out of every group. *)
Definition group_key (c : Column) (r : ProcessedRecord) : option key :=
  match c with
  | Age => Some (KInt (age r))
  | Sex => Some (KStr (sex r))
  | Bmi => float_key (Finite (bmi r))
  | Children => Some (KInt (children r))
  | Smoker => Some (KStr (smoker r))
  | Region => Some (KStr (region r))
  | Charges => float_key (Finite (charges r))
  | BmiCategory => category_key (bmi_category r)
  | AgeGroup => category_key (age_group r)
  | IsSmoker => Some (KInt (is_smoker r))
  | ChargesPerPerson => float_key (charges_per_person r)
  end.

(** The categories of a column of category dtype; [None] for the other
    dtypes. *)
Definition categories (data : ProcessedFrame) (c : Column) : option (list string) :=
  match c with
  | Sex => Some (sex_categories data)
  | Smoker => Some (smoker_categories data)
  | Region => Some (region_categories data)
  | BmiCategory => Some bmi_labels
  | AgeGroup => Some age_labels
  | _ => None
  end.

Definition Q_eq_dec (a b : Q) : {a = b} + {a <> b}.
Proof. decide equality; [apply Pos.eq_dec | apply Z.eq_dec]. Defined.

Definition float64_eq_dec (a b : float64) : {a = b} + {a <> b}.
Proof. decide equality. apply Q_eq_dec. Defined.

Definition key_eq_dec (a b : key) : {a = b} + {a <> b}.
Proof.
  decide equality; [apply Z.eq_dec | apply float64_eq_dec | apply string_dec].
Defined.

Definition key_eqb (a b : key) : bool :=
  if key_eq_dec a b then true else false.

(** The order [groupby] sorts its keys by.  A column holds keys of one
    kind; across kinds the order is by kind, only to make it total. *)
Definition float_leb (x y : float64) : bool :=
  match x, y with
  | _, NaN => true
  | NaN, _ => false
  | NegInf, _ => true
  | _, PosInf => true
  | Finite a, Finite b => Qle_bool a b
  | _, _ => false
  end.

Definition key_leb (a b : key) : bool :=
  match a, b with
  | KInt x, KInt y => (x <=? y)%Z
  | KFloat x, KFloat y => float_leb x y
  | KStr x, KStr y => String.leb x y
  | KInt _, _ => true
  | KFloat _, KStr _ => true
  | _, _ => false
  end.

Module KeyOrder <: TotalLeBool.
Definition t := key.
Definition leb := key_leb.
Definition leb_total : forall a b, leb a b = true \/ leb b a = true.
Proof.
  intros [x|x|x] [y|y|y]; simpl; auto.
  - destruct (Z.leb_spec x y); [now left|right]. apply Z.leb_le. lia.
  - destruct x, y; simpl; auto. apply QOrder.leb_total.
  - apply String.leb_total.
Qed.
End KeyOrder.

Module KeySort := Sort KeyOrder.

Fixpoint keys_of (c : Column) (rs : list ProcessedRecord) : list key :=
  match rs with
  | [] => []
  | r :: rest =>
      match group_key c r with
      | Some k => k :: keys_of c rest
      | None => keys_of c rest
      end
  end.

(** The index of [groupby(column, observed=False)]: every category of a
    categorical column, observed or not, in category order; otherwise the
    distinct non-null values, sorted. *)
Definition group_index (data : ProcessedFrame) (c : Column) : list key :=
  match categories data c with
  | Some cats => map KStr cats
  | None => KeySort.sort (nodup key_eq_dec (keys_of c (rows data)))
  end.

Definition in_group (c : Column) (k : key) (r : ProcessedRecord) : bool :=
  match group_key c r with
  | Some k' => key_eqb k' k
  | None => false
  end.

(** One row of the aggregate table. *)
Record GroupStatistics : Type := mkStats {
  stat_count : Z;
  stat_mean : float64;
  stat_median : float64;
  stat_std : float64;
  stat_min : float64;
  stat_max : float64
}.

(** [.agg([count, mean, median, std, min, max]).round(2)] on the charges
    of one group.  The count is an integer and is not touched by
    [round]. *)
Definition aggregate (group_charges : list Q) : GroupStatistics :=
  {| stat_count := Z.of_nat (List.length group_charges);
     stat_mean := fround 100 (mean group_charges);
     stat_median := fround 100 (median group_charges);
     stat_std := std_rounded 100 group_charges;
     stat_min := fround 100 (Qmin_list group_charges);
     stat_max := fround 100 (Qmax_list group_charges) |}.

(** The [charges] column of a selection of rows. *)
Definition charges_of (rs : list ProcessedRecord) : list Q :=
  map (fun r : ProcessedRecord => charges r) rs.

Definition groupby_charges (data : ProcessedFrame) (c : Column)
  : list (key * GroupStatistics) :=
  map (fun k => (k, aggregate (charges_of (filter (in_group c k) (rows data)))))
      (group_index data c).

(* ================================================================== *)
(** ** HealthInsuranceAnalyzer *)

Definition analyze_charges_by_factor (data : ProcessedFrame) (factor : string)
  : result (list (key * GroupStatistics)) :=
  match find_column factor with
  | None => Raise (ValueError ("Factor '" ++ factor ++ "' not found in data"))
  | Some c => Ok (groupby_charges data c)
  end.

Record SmokerImpact : Type := mkImpact {
  smoker_avg : float64;
  non_smoker_avg : float64;
  difference : float64;
  percentage_increase : float64;
  smoker_count : Z;
  non_smoker_count : Z
}.

(** [data[data['smoker'] == value]['charges']]. *)
Definition charges_where_smoker (value : string) (data : ProcessedFrame) : list Q :=
  charges_of (filter (fun r : ProcessedRecord => String.eqb (smoker r) value)
                     (rows data)).

(** No statement of the method raises: an empty selection has mean NaN,
    and NaN flows through the arithmetic. *)
Definition analyze_smoker_impact (data : ProcessedFrame) : SmokerImpact :=
  let smoker_data := charges_where_smoker "yes" data in
  let non_smoker_data := charges_where_smoker "no" data in
  {| smoker_avg := mean smoker_data;
     non_smoker_avg := mean non_smoker_data;
     difference := fsub (mean smoker_data) (mean non_smoker_data);
     percentage_increase :=
       fmul (fsub (fdiv (mean smoker_data) (mean non_smoker_data)) (Finite 1))
            (Finite 100);
     smoker_count := Z.of_nat (List.length smoker_data);
     non_smoker_count := Z.of_nat (List.length non_smoker_data) |}.

Definition analyze_bmi_impact (data : ProcessedFrame) :=
  match find_column "bmi_category" with
  | None => Raise (ValueError "BMI category not found. Ensure ETL transform was run.")
  | Some _ => analyze_charges_by_factor data "bmi_category"
  end.

Definition analyze_age_impact (data : ProcessedFrame) :=
  match find_column "age_group" with
  | None => Raise (ValueError "Age group not found. Ensure ETL transform was run.")
  | Some _ => analyze_charges_by_factor data "age_group"
  end.

Definition analyze_regional_differences (data : ProcessedFrame) :=
  analyze_charges_by_factor data "region".

Definition analyze_children_impact (data : ProcessedFrame) :=
  analyze_charges_by_factor data "children".

(** The dtype of a column of the processed frame, as far as
    [select_dtypes] tells dtypes apart: a number dtype (int64, float64),
    category, or object. *)
Inductive dtype : Type :=
| NumberDtype
| CategoryDtype
| ObjectDtype.

(** The three [astype('category')] columns and the two [pd.cut] columns
    are categorical; [is_smoker] comes from [astype(int)]; the four
    numeric columns of the file keep the dtype they were read with, and
    [charges_per_person], their quotient, has it too. *)
Definition dtype_of (data : ProcessedFrame) (c : Column) : dtype :=
  match c with
  | Sex | Smoker | Region | BmiCategory | AgeGroup => CategoryDtype
  | IsSmoker => NumberDtype
  | Age | Bmi | Children | Charges | ChargesPerPerson =>
      if numeric data then NumberDtype else ObjectDtype
  end.

(** [select_dtypes(include=[np.number])]. *)
Definition is_number (data : ProcessedFrame) (c : Column) : bool :=
  match dtype_of data c with
  | NumberDtype => true
  | _ => false
  end.

(** A cell of a numeric column as a float ([to_numpy(dtype=float)]). *)
Definition numeric_value (c : Column) (r : ProcessedRecord) : float64 :=
  match c with
  | Age => Finite (inject_Z (age r))
  | Bmi => Finite (bmi r)
  | Children => Finite (inject_Z (children r))
  | Charges => Finite (charges r)
  | IsSmoker => Finite (inject_Z (is_smoker r))
  | ChargesPerPerson => charges_per_person r
  | _ => NaN
  end.

Definition column_values (c : Column) (data : ProcessedFrame) : list float64 :=
  map (numeric_value c) (rows data).

(** The rows [nancorr] uses for a pair of columns: those where both cells
    are finite. *)
Fixpoint finite_pairs (xs ys : list float64) : list (Q * Q) :=
  match xs, ys with
  | x :: xs', y :: ys' =>
      match isfinite x, isfinite y with
      | Some a, Some b => (a, b) :: finite_pairs xs' ys'
      | _, _ => finite_pairs xs' ys'
      end
  | _, _ => []
  end.

(** A Pearson coefficient before rounding: NaN, or the quotient of the
    co-moment [covxy] by the square root of [ssq > 0]. *)
Inductive correlation : Type :=
| CorrNaN
| CorrRatio (covxy ssq : Q).

(** The mean of a non-empty sample. *)
Definition meanq (l : list Q) : Q := Qsum l / Qlen l.

(** The sum over the observations of the products of the deviations of
    two coordinates from their means: a sum of squared deviations when
    the coordinates are the same, the co-moment otherwise. *)
Definition comoment (f g : Q * Q -> Q) (obs : list (Q * Q)) : Q :=
  let meanf := meanq (map f obs) in
  let meang := meanq (map g obs) in
  Qsum (map (fun p => (f p - meanf) * (g p - meang)) obs).

(** One entry of [DataFrame.corr()] (method pearson, min_periods 1): the
    sums of squared deviations and the co-moment over the rows where both
    cells are finite; NaN without such a row or when the divisor
    [sqrt (ssqdm_x * ssqdm_y)] is zero. *)
Definition nancorr (xs ys : list float64) : correlation :=
  match finite_pairs xs ys with
  | [] => CorrNaN
  | obs =>
      let ssqdm_x := comoment fst fst obs in
      let ssqdm_y := comoment snd snd obs in
      let covxy := comoment fst snd obs in
      if Qeq_bool (ssqdm_x * ssqdm_y) 0
      then CorrNaN
      else CorrRatio covxy (ssqdm_x * ssqdm_y)
  end.

(** [round(d)] of a coefficient, [scale = 10^d]: the magnitude
    [|covxy| / sqrt ssq] is the square root of [covxy^2 / ssq]. *)
Definition round_correlation (scale : positive) (r : correlation) : float64 :=
  match r with
  | CorrNaN => NaN
  | CorrRatio covxy ssq =>
      let k := round_sqrt (covxy * covxy / ssq * inject_Z (Zpos scale * Zpos scale)) in
      Finite (Qred ((match (covxy ?= 0)%Q with Lt => (- k)%Z | _ => k end) # scale))
  end.

Definition corr_entry (data : ProcessedFrame) (a b : Column) : float64 :=
  round_correlation 1000 (nancorr (column_values a data) (column_values b data)).

(** A table with labelled rows and columns. *)
Definition Table : Type := list (string * list (string * float64)).

Definition lookup {A : Type} (name : string) (l : list (string * A)) : option A :=
  option_map snd (find (fun p => String.eqb (fst p) name) l).

Definition table_entry (t : Table) (row col : string) : option float64 :=
  match lookup row t with
  | Some r => lookup col r
  | None => None
  end.

Definition correlation_analysis (data : ProcessedFrame) : Table :=
  let numeric_cols := filter (is_number data) columns in
  map (fun a =>
         (column_name a,
          map (fun b => (column_name b, corr_entry data a b)) numeric_cols))
      numeric_cols.

(** [self.data[mask]] keeps the dtypes, so the categories, of the frame. *)
Definition select_rows (mask : ProcessedRecord -> bool) (data : ProcessedFrame)
  : ProcessedFrame :=
  {| rows := filter mask (rows data);
     sex_categories := sex_categories data;
     smoker_categories := smoker_categories data;
     region_categories := region_categories data;
     numeric := numeric data |}.

(** [threshold_percentile / 100], the true division of Python on a
    float or an int: the quotient as a float64.  A quotient beyond the
    float64 range, which takes an int beyond the floats, raises
    OverflowError; a quotient of magnitude at most 2^-1075 is zero. *)
Definition percent (threshold_percentile : Q) : result Q :=
  let q := threshold_percentile / 100 in
  if (Qle_bool float64_overflow q || Qle_bool q (- float64_overflow))%bool
  then Raise (OverflowError "integer division result too large for a float")
  else Ok (underflow q).

(** The float quotient is what [quantile] checks against [0, 1]: the
    quotient of a negative percentile of magnitude up to 100 * 2^-1075
    is -0.0 and passes. *)
Definition identify_high_risk_profiles
  (data : ProcessedFrame) (threshold_percentile : Q) : result ProcessedFrame :=
  match percent threshold_percentile with
  | Raise e => Raise e
  | Ok q =>
      match quantile (charges_of (rows data)) q with
      | Raise e => Raise e
      | Ok threshold =>
          Ok (select_rows (fun r => fge (Finite (charges r)) threshold) data)
      end
  end.

(** [Series.value_counts()] of a categorical column, as the mapping
    [to_dict()] returns: every category with its number of rows. *)
Definition value_counts (c : Column) (data : ProcessedFrame) : list (string * Z) :=
  match categories data c with
  | Some cats =>
      map (fun s => (s, Z.of_nat (List.length (filter (in_group c (KStr s)) (rows data)))))
          cats
  | None => []
  end.

Record KeyInsights : Type := mkInsights {
  total_records : Z;
  avg_age : float64;
  avg_bmi : float64;
  avg_charges : float64;
  median_charges : float64;
  smoker_percentage : float64;
  smoker_charge_increase : float64;
  youngest_age : float64;
  oldest_age : float64;
  min_bmi : float64;
  max_bmi : float64;
  min_charges : float64;
  max_charges : float64;
  charges_range : float64;
  gender_distribution : list (string * Z);
  regional_distribution : list (string * Z)
}.

(** The two counts are Python ints, so their quotient raises
    ZeroDivisionError when no row is a smoker or a non-smoker. *)
Definition get_key_insights (data : ProcessedFrame) : result KeyInsights :=
  let ages := map (fun r : ProcessedRecord => inject_Z (age r)) (rows data) in
  let bmis := map (fun r : ProcessedRecord => bmi r) (rows data) in
  let all_charges := charges_of (rows data) in
  let smoker_impact := analyze_smoker_impact data in
  let known := (smoker_count smoker_impact + non_smoker_count smoker_impact)%Z in
  if (known =? 0)%Z
  then Raise (ZeroDivisionError "division by zero")
  else Ok {| total_records := Z.of_nat (List.length (rows data));
             avg_age := mean ages;
             avg_bmi := mean bmis;
             avg_charges := mean all_charges;
             median_charges := median all_charges;
             smoker_percentage :=
               Finite (inject_Z (smoker_count smoker_impact) / inject_Z known * 100);
             smoker_charge_increase := percentage_increase smoker_impact;
             youngest_age := Qmin_list ages;
             oldest_age := Qmax_list ages;
             min_bmi := Qmin_list bmis;
             max_bmi := Qmax_list bmis;
             min_charges := Qmin_list all_charges;
             max_charges := Qmax_list all_charges;
             charges_range := fsub (Qmax_list all_charges) (Qmin_list all_charges);
             gender_distribution := value_counts Sex data;
             regional_distribution := value_counts Region data |}.

(* ================================================================== *)
(** ** The two classes over a store of DataFrame objects *)

(** A DataFrame is a mutable object: [data.copy()] and [data.dropna()]
    create one, [data[col] = ...] writes into the one [data] is bound to,
    and both classes keep references ([self.raw_data],
    [self.processed_data], [self.data]).  The store maps an address to the
    object that lives there.  A method run on an object of another shape
    than the one it is written for (the analyzer on a frame that was not
    produced by [transform], say) is outside the model: the computation
    yields [None]. *)
Module Store.

(** A raw frame is a frame as [read_csv] returns it; the frame [dropna]
    makes of it has the same dtypes. *)
Inductive DataFrame : Type :=
| RawFrame (data : list RawRecord)
| CleanFrame (numeric : bool) (data : list CleanRecord)
| Processed (data : ProcessedFrame).

Definition loc : Type := nat.

(** The objects allocated so far, and the two fields of the
    [HealthInsuranceETL] instance. *)
Record State : Type := mkState {
  heap : list DataFrame;
  raw_data : option loc;
  processed_data : option loc
}.

Definition M (A : Type) : Type := State -> option (result A * State).

Definition ret {A : Type} (a : A) : M A := fun st => Some (Ok a, st).

Definition bind {A B : Type} (m : M A) (f : A -> M B) : M B :=
  fun st =>
    match m st with
    | Some (Ok a, st') => f a st'
    | Some (Raise e, st') => Some (Raise e, st')
    | None => None
    end.

Definition raise {A : Type} (e : exn) : M A := fun st => Some (Raise e, st).

Definition unmodelled {A : Type} : M A := fun _ => None.

Definition lift {A : Type} (r : result A) : M A := fun st => Some (r, st).

Notation "x <- m ;; f" := (bind m (fun x => f))
  (at level 61, m at next level, right associativity).

Fixpoint update (l : loc) (f : DataFrame) (h : list DataFrame) : list DataFrame :=
  match h, l with
  | [], _ => []
  | _ :: rest, O => f :: rest
  | g :: rest, S l' => g :: update l' f rest
  end.

Definition load (l : loc) : M DataFrame :=
  fun st =>
    match nth_error (heap st) l with
    | Some f => Some (Ok f, st)
    | None => None
    end.

(** A new object gets the next free address. *)
Definition alloc (f : DataFrame) : M loc :=
  fun st =>
    Some (Ok (List.length (heap st)),
          mkState (heap st ++ [f]) (raw_data st) (processed_data st)).

Definition store (l : loc) (f : DataFrame) : M unit :=
  fun st =>
    Some (Ok tt, mkState (update l f (heap st)) (raw_data st) (processed_data st)).

Definition get_raw_data : M (option loc) := fun st => Some (Ok (raw_data st), st).

Definition set_processed_data (l : loc) : M unit :=
  fun st => Some (Ok tt, mkState (heap st) (raw_data st) (Some l)).

(** [data.copy()] *)
Definition copy (data : loc) : M loc :=
  f <- load data ;; alloc f.

(** [data.dropna()]: a new object, the receiver is left as it is. *)
Definition dropna (data : loc) : M loc :=
  f <- load data ;;
  match f with
  | RawFrame d => alloc (CleanFrame (read_numeric d) (dropna d))
  | CleanFrame n d => alloc (CleanFrame n d)
  | Processed _ => unmodelled
  end.

(** Lines 71-95: seven assignments [data[col] = ...], all into the
    object [data] is bound to. *)
Definition assign_columns (data : loc) : M unit :=
  f <- load data ;;
  match f with
  | CleanFrame n d => store data (Processed (assign_columns n d))
  | _ => unmodelled
  end.

Definition transform (data : option loc) : M loc :=
  data <- match data with
          | None =>
              raw <- get_raw_data ;;
              match raw with
              | None => raise (ValueError "No data available. Run extract() first.")
              | Some l => copy l
              end
          | Some l => copy l
          end ;;
  data <- dropna data ;;
  _ <- assign_columns data ;;
  _ <- set_processed_data data ;;
  ret data.

(** [HealthInsuranceAnalyzer]: the instance holds a reference to the
    frame it was built with. *)
Record Analyzer : Type := mkAnalyzer { data : loc }.

Definition self_data (self : Analyzer) : M ProcessedFrame :=
  f <- load (data self) ;;
  match f with
  | Processed p => ret p
  | _ => unmodelled
  end.

(** [self.data.describe()]: the summary table is computed by pandas and
    no property below depends on it, so the computation is a
    parameter. *)
Definition get_basic_statistics {T : Type} (describe : ProcessedFrame -> T)
  (self : Analyzer) : M T :=
  df <- self_data self ;; ret (describe df).

Definition analyze_charges_by_factor (self : Analyzer) (factor : string) :=
  df <- self_data self ;; lift (analyze_charges_by_factor df factor).

Definition analyze_smoker_impact (self : Analyzer) :=
  df <- self_data self ;; ret (analyze_smoker_impact df).

Definition correlation_analysis (self : Analyzer) :=
  df <- self_data self ;; ret (correlation_analysis df).

(** The selection [self.data[mask]] is a new frame. *)
Definition identify_high_risk_profiles (self : Analyzer) (threshold_percentile : Q) :=
  df <- self_data self ;;
  high_risk <- lift (identify_high_risk_profiles df threshold_percentile) ;;
  alloc (Processed high_risk).

Definition get_key_insights (self : Analyzer) :=
  df <- self_data self ;; lift (get_key_insights df).

(** Every object of the store [st] is still there, unchanged, in [st']. *)
Definition preserved (st st' : State) : Prop :=
  forall l f, nth_error (heap st) l = Some f -> nth_error (heap st') l = Some f.

End Store.

(* ================================================================== *)
(** ** extract, load and run_pipeline *)

(** The three methods of [HealthInsuranceETL] around [transform] talk to
    the file system: [pd.read_csv], [os.makedirs], [DataFrame.to_csv].
    What these calls do is not in the repository, so the file system and
    the three calls are a parameter ([OS]); the methods are modelled on
    top of it.  Paths are POSIX paths. *)
Module Pipeline.

(** The exceptions of this layer: the ones of the analysis layer, and
    those that come out of the file system calls or of [extract]; each
    carries [str(e)]. *)
Inductive io_exn : Type :=
| Builtin (e : exn)
| FileNotFoundError (msg : string)
| OtherError (msg : string)
| Exception (msg : string).

Definition str (e : io_exn) : string :=
  match e with
  | Builtin (ValueError msg) => msg
  | Builtin (ZeroDivisionError msg) => msg
  | Builtin (OverflowError msg) => msg
  | FileNotFoundError msg => msg
  | OtherError msg => msg
  | Exception msg => msg
  end.

Inductive outcome (A : Type) : Type :=
| Returned (a : A)
| Raised (e : io_exn).
Arguments Returned {A} a.
Arguments Raised {A} e.

(** The file system: [read_csv] returns the rows of a file or raises;
    [makedirs] (called with [exist_ok=True]) and [to_csv] return or
    raise, and change the file system. *)
Record OS : Type := mkOS {
  FS : Type;
  read_csv : string -> FS -> outcome (list RawRecord);
  makedirs : string -> FS -> outcome unit * FS;
  to_csv : string -> Store.DataFrame -> FS -> outcome unit * FS
}.

(** [os.makedirs('')] raises FileNotFoundError and creates nothing. *)
Definition makedirs_rejects_empty (os : OS) : Prop :=
  forall fs : FS os,
    exists msg, makedirs os "" fs = (Raised (FileNotFoundError msg), fs).

Definition is_slash (c : ascii) : bool := Ascii.eqb c "/"%char.

Fixpoint drop_while (f : ascii -> bool) (l : list ascii) : list ascii :=
  match l with
  | [] => []
  | c :: rest => if f c then drop_while f rest else l
  end.

(** [posixpath.dirname]: the path up to its last slash; trailing slashes
    of that head are stripped unless it consists of slashes only. *)
Definition dirname (p : string) : string :=
  let head := rev (drop_while (fun c => negb (is_slash c))
                              (rev (list_ascii_of_string p))) in
  if forallb is_slash head
  then string_of_list_ascii head
  else string_of_list_ascii (rev (drop_while is_slash (rev head))).

(** The instance ([self.data_path]), the store with the two frame
    references of the instance, and the file system. *)
Record World (os : OS) : Type := mkWorld {
  data_path : string;
  etl : Store.State;
  files : FS os
}.
Arguments mkWorld {os} _ _ _.
Arguments data_path {os} _.
Arguments etl {os} _.
Arguments files {os} _.

Definition IO (os : OS) (A : Type) : Type :=
  World os -> option (outcome A * World os).

Definition ret {os : OS} {A : Type} (a : A) : IO os A :=
  fun w => Some (Returned a, w).

Definition bind {os : OS} {A B : Type} (m : IO os A) (f : A -> IO os B) : IO os B :=
  fun w =>
    match m w with
    | Some (Returned a, w') => f a w'
    | Some (Raised e, w') => Some (Raised e, w')
    | None => None
    end.

Definition raise {os : OS} {A : Type} (e : io_exn) : IO os A :=
  fun w => Some (Raised e, w).

Notation "x <- m ;; f" := (bind m (fun x => f))
  (at level 61, m at next level, right associativity).

(** A computation of the store layer, run on the store of the world. *)
Definition lift {os : OS} {A : Type} (m : Store.M A) : IO os A :=
  fun w =>
    match m (etl w) with
    | Some (Ok a, st) => Some (Returned a, mkWorld (data_path w) st (files w))
    | Some (Raise e, st) => Some (Raised (Builtin e), mkWorld (data_path w) st (files w))
    | None => None
    end.

Definition set_raw_data (l : Store.loc) : Store.M unit :=
  fun st => Some (Ok tt, Store.mkState (Store.heap st) (Some l) (Store.processed_data st)).

Definition get_processed_data : Store.M (option Store.loc) :=
  fun st => Some (Ok (Store.processed_data st), st).

Definition call_makedirs {os : OS} (name : string) : IO os unit :=
  fun w =>
    let (r, fs) := makedirs os name (files w) in
    Some (r, mkWorld (data_path w) (etl w) fs).

Definition call_to_csv {os : OS} (path : string) (frame : Store.DataFrame) : IO os unit :=
  fun w =>
    let (r, fs) := to_csv os path frame (files w) in
    Some (r, mkWorld (data_path w) (etl w) fs).

(** [extract]: the frame read becomes [self.raw_data]; FileNotFoundError
    is raised again with the path in its message, any other exception as
    a plain Exception. *)
Definition extract (os : OS) : IO os Store.loc :=
  fun w =>
    match read_csv os (data_path w) (files w) with
    | Returned rows =>
        (raw <- lift (Store.alloc (Store.RawFrame rows)) ;;
         _ <- lift (set_raw_data raw) ;;
         ret raw) w
    | Raised (FileNotFoundError _) =>
        Some (Raised (FileNotFoundError ("Data file not found at " ++ data_path w)), w)
    | Raised e =>
        Some (Raised (Exception ("Error extracting data: " ++ str e)), w)
    end.

Definition load (os : OS) (output_path : string) (data : option Store.loc)
  : IO os unit :=
  data <- match data with
          | None =>
              processed <- lift get_processed_data ;;
              match processed with
              | None =>
                  raise (Builtin (ValueError
                    "No processed data available. Run transform() first."))
              | Some l => ret l
              end
          | Some l => ret l
          end ;;
  _ <- call_makedirs (dirname output_path) ;;
  frame <- lift (Store.load data) ;;
  call_to_csv output_path frame.

(** [if output_path:] is false for [None] and for the empty string. *)
Definition run_pipeline (os : OS) (output_path : option string)
  : IO os (option Store.loc) :=
  _ <- extract os ;;
  _ <- lift (Store.transform None) ;;
  _ <- match output_path with
       | Some path => if String.eqb path "" then ret tt else load os path None
       | None => ret tt
       end ;;
  lift get_processed_data.

(** [data.isnull()] on one cell: a missing category or a NaN. *)
Definition isnull (c : Column) (r : ProcessedRecord) : bool :=
  match group_key c r with
  | Some _ => false
  | None => true
  end.

(** [select_dtypes(include=['category', 'object'])]. *)
Definition is_categorical (data : ProcessedFrame) (c : Column) : bool :=
  match dtype_of data c with
  | CategoryDtype | ObjectDtype => true
  | NumberDtype => false
  end.

(** The dictionary of [get_data_summary].  The dtype names under
    ['data_types'] depend on how [read_csv] typed the numeric columns
    (int64 or float64), which a processed frame does not record: they
    are a parameter. *)
Record DataSummary (T : Type) : Type := mkSummary {
  total_records : Z;
  total_features : Z;
  numeric_features : list string;
  categorical_features : list string;
  missing_values : list (string * Z);
  data_types : T
}.
Arguments mkSummary {T} _ _ _ _ _ _.
Arguments total_records {T} _.
Arguments total_features {T} _.
Arguments numeric_features {T} _.
Arguments categorical_features {T} _.
Arguments missing_values {T} _.
Arguments data_types {T} _.

Definition data_summary {T : Type} (dtypes : ProcessedFrame -> T)
  (data : ProcessedFrame) : DataSummary T :=
  {| total_records := Z.of_nat (List.length (rows data));
     total_features := Z.of_nat (List.length columns);
     numeric_features := map column_name (filter (is_number data) columns);
     categorical_features := map column_name (filter (is_categorical data) columns);
     missing_values :=
       map (fun c => (column_name c,
                      Z.of_nat (List.length (filter (isnull c) (rows data)))))
           columns;
     data_types := dtypes data |}.

Definition get_data_summary {T : Type} (dtypes : ProcessedFrame -> T)
  : Store.M (DataSummary T) :=
  Store.bind get_processed_data (fun processed =>
    match processed with
    | None =>
        Store.raise (ValueError "No processed data available. Run transform() first.")
    | Some l =>
        Store.bind (Store.load l) (fun frame =>
          match frame with
          | Store.Processed data => Store.ret (data_summary dtypes data)
          | _ => Store.unmodelled
          end)
    end).

End Pipeline.

(* ================================================================== *)
(** ** Vocabulary of the statements *)

(** The sum of the [count] column of an aggregate table. *)
Definition total_count (table : list (key * GroupStatistics)) : Z :=
  fold_right Z.add 0%Z (map (fun e => stat_count (snd e)) table).

(** A numeric column varies when two of its finite cells differ. *)
Definition varies (xs : list float64) : Prop :=
  exists a b : Q, In (Finite a) xs /\ In (Finite b) xs /\ ~ a == b.

(** The finite cells of a column. *)
Fixpoint finite_values (xs : list float64) : list Q :=
  match xs with
  | [] => []
  | x :: rest =>
      match isfinite x with
      | Some q => q :: finite_values rest
      | None => finite_values rest
      end
  end.

(** The sum of squared deviations from the mean. *)
Definition ssqdm (l : list Q) : Q :=
  Qsum (map (fun x => (x - meanq l) * (x - meanq l)) l).

Definition numeric_names : list string :=
  ["age"; "bmi"; "children"; "charges"; "is_smoker"; "charges_per_person"]%string.

(** The number of rows in the group of key [k], and the sum of these
    numbers over a list of keys. *)
Definition group_size (c : Column) (rs : list ProcessedRecord) (k : key) : Z :=
  Z.of_nat (List.length (filter (in_group c k) rs)).

Definition sizes_sum (c : Column) (rs : list ProcessedRecord) (ks : list key) : Z :=
  fold_right Z.add 0%Z (map (group_size c rs) ks).

(** The rows [groupby(c)] puts in a group: for the two bucket columns
    those whose bmi, or age, lies in (0, 100]; for [charges_per_person]
    those where the quotient is a number; for the other columns all. *)
Definition counted (c : Column) (r : ProcessedRecord) : bool :=
  match c with
  | BmiCategory => (Qltb 0 (bmi r) && Qle_bool (bmi r) 100)%bool
  | AgeGroup => ((0 <? age r)%Z && (age r <=? 100)%Z)%bool
  | ChargesPerPerson => negb (is_nan (charges_per_person r))
  | _ => true
  end.

(** The columns without null cells in a processed frame. *)
Definition never_null (c : Column) : bool :=
  match c with
  | BmiCategory | AgeGroup | ChargesPerPerson => false
  | _ => true
  end.

(** A frame whose categorical cells are among the categories of their
    column, as pandas keeps them. *)
Definition consistent (p : ProcessedFrame) : Prop :=
  forall (c : Column) (cats : list string),
    categories p c = Some cats ->
    NoDup cats /\
    forall (r : ProcessedRecord) (k : key),
      In r (rows p) -> group_key c r = Some k -> In k (map KStr cats).

(** [row.isna().any()]: some cell of the row is missing. *)
Definition isna_any (r : RawRecord) : bool :=
  match raw_age r, raw_sex r, raw_bmi r, raw_children r,
        raw_smoker r, raw_region r, raw_charges r with
  | Some _, Some _, Some _, Some _, Some _, Some _, Some _ => false
  | _, _, _, _, _, _, _ => true
  end.

(** The sum of an integer column. *)
Definition Zsum (l : list Z) : Z := fold_right Z.add 0%Z l.

(** A list of strings in non-decreasing order. *)
Definition ascending (l : list string) : Prop :=
  Sorted (fun a b => String.leb a b = true) l.

(** A [smoker] cell that is neither "yes" nor "no". *)
Definition other_smoker (r : ProcessedRecord) : bool :=
  (negb (String.eqb (smoker r) "yes") && negb (String.eqb (smoker r) "no"))%bool.

(** A path without a slash. *)
Definition no_slash (path : string) : Prop :=
  forallb (fun c => negb (Pipeline.is_slash c)) (list_ascii_of_string path) = true.

(* ================================================================== *)
(** ** Sample data *)

(** A raw row with every cell present. *)
Definition complete_row (c : CleanRecord) : RawRecord :=
  mkRaw (Some (age c)) (Some (sex c)) (Some (bmi c)) (Some (children c))
        (Some (smoker c)) (Some (region c)) (Some (charges c)).

Definition sample_row (a : Z) (s : string) (b : Q) (c : Z) (k g : string) (ch : Q)
  : RawRecord :=
  complete_row (mkClean a s b c k g ch).

(** Three complete rows whose bmi sit on the inner bin edges 18.5, 25 and
    30, the first two with ages 25 and 26. *)
Definition edge_rows : list RawRecord :=
  [sample_row 25 "male" (37 # 2) 0 "no" "southwest" 3000;
   sample_row 26 "female" 25 2 "yes" "northeast" 20000;
   sample_row 40 "male" 30 1 "no" "southeast" 1500]%string.

(** A complete row whose three categorical cells are outside the usual
    domains, after a row without a bmi. *)
Definition odd_rows : list RawRecord :=
  [mkRaw (Some 33%Z) (Some "female") None (Some 1%Z) (Some "no") (Some "northwest")
         (Some 4000);
   sample_row 41 "other" 27 1 "sometimes" "mars" 5000]%string.

(** Two policyholders, both smokers. *)
Definition smokers_only : list RawRecord :=
  [sample_row 50 "female" 31 2 "yes" "northeast" 20000;
   sample_row 44 "male" 28 0 "yes" "southeast" 30000]%string.

(** The three policyholders of the specification's scenario. *)
Definition scenario : list RawRecord :=
  [sample_row 30 "male" 22 0 "no" "southwest" 3000;
   sample_row 50 "female" 31 2 "yes" "northeast" 20000;
   sample_row 20 "male" 17 0 "no" "southeast" 1500]%string.

(** Two policyholders, one of them a hundred and one years old. *)
Definition centenarian_rows : list RawRecord :=
  [sample_row 30 "male" 22 0 "no" "southwest" 3000;
   sample_row 101 "female" 24 0 "no" "northeast" 9000]%string.

(** One policyholder whose number of children is the largest int64. *)
Definition overflow_rows : list RawRecord :=
  [sample_row 40 "male" 30 9223372036854775807 "no" "southeast" 1500]%string.

(** A store with one raw frame, the scenario, known to the ETL instance
    as [self.raw_data]; and one with its processed frame. *)
Definition raw_store : Store.State :=
  Store.mkState [Store.RawFrame scenario] (Some 0%nat) None.

Definition processed_store : Store.State :=
  Store.mkState [Store.Processed (transform scenario)] None (Some 0%nat).

(** A store holding the processed frame of the two smokers. *)
Definition smokers_store : Store.State :=
  Store.mkState [Store.Processed (transform smokers_only)] None (Some 0%nat).

(** A frame with the categories of the scenario and no rows. *)
Definition empty_frame : ProcessedFrame :=
  mkFrame [] ["female"; "male"]%string ["no"; "yes"]%string
          ["northeast"; "southeast"; "southwest"]%string true.

(** A file system in memory, for the examples: a list of files with
    their tables; directories are not recorded. *)
Definition memory_os : Pipeline.OS :=
  Pipeline.mkOS
    (list (string * Store.DataFrame))
    (fun path fs =>
       match find (fun f => String.eqb (fst f) path) fs with
       | Some (_, Store.RawFrame rows) => Pipeline.Returned rows
       | Some _ => Pipeline.Raised (Pipeline.OtherError "Error tokenizing data")
       | None =>
           Pipeline.Raised
             (Pipeline.FileNotFoundError "[Errno 2] No such file or directory")
       end)
    (fun name fs =>
       if String.eqb name ""
       then (Pipeline.Raised
               (Pipeline.FileNotFoundError "[Errno 2] No such file or directory: ''"),
             fs)
       else (Pipeline.Returned tt, fs))
    (fun path frame fs => (Pipeline.Returned tt, (path, frame) :: fs)).

(** A new ETL instance next to a file with the scenario. *)
Definition sample_world : Pipeline.World memory_os :=
  @Pipeline.mkWorld memory_os "data/insurance.csv" (Store.mkState [] None None)
                    [("data/insurance.csv"%string, Store.RawFrame scenario)].

(** The same instance without the file. *)
Definition bare_world : Pipeline.World memory_os :=
  @Pipeline.mkWorld memory_os "data/insurance.csv" (Store.mkState [] None None) [].

(* ================================================================== *)
(** * Properties *)
Lemma Qltb_lt (a b : Q) : Qltb a b = true <-> a < b.
Proof.
  unfold Qltb. rewrite negb_true_iff. split; intro H.
  - apply Qnot_le_lt. intro Hle. apply Qle_bool_iff in Hle. congruence.
  - destruct (Qle_bool b a) eqn:E; [|reflexivity].
    apply Qle_bool_iff in E. exfalso. exact (Qlt_not_le _ _ H E).
Qed.

Lemma Qltb_ge (a b : Q) : Qltb a b = false <-> b <= a.
Proof.
  unfold Qltb. rewrite negb_false_iff. apply Qle_bool_iff.
Qed.

Ltac qcmp :=
  repeat match goal with
    | H : Qltb _ _ = true |- _ => apply Qltb_lt in H
    | H : Qltb _ _ = false |- _ => apply Qltb_ge in H
    end.

(** *** dropna and the rows of the processed frame *)

Lemma dropna_In (data : list RawRecord) (c : CleanRecord) :
  In c (dropna data) <-> exists raw, In raw data /\ notna raw = Some c.
Proof.
  induction data as [|r rest IH]; simpl.
  - split; [tauto | intros (raw & [] & _)].
  - destruct (notna r) as [c'|] eqn:E; simpl; rewrite IH; split.
    + intros [H | (raw & Hin & Hn)].
      * exists r. subst. auto.
      * exists raw. auto.
    + intros (raw & [H | Hin] & Hn).
      * subst. left. congruence.
      * right. exists raw. auto.
    + intros (raw & Hin & Hn). exists raw. auto.
    + intros (raw & [H | Hin] & Hn).
      * subst. congruence.
      * exists raw. auto.
Qed.

Lemma transform_rows (data : list RawRecord) :
  rows (transform data) = map derive (dropna data).
Proof. reflexivity. Qed.

Lemma transform_row_derived (data : list RawRecord) (r : ProcessedRecord) :
  In r (rows (transform data)) -> r = derive (base r).
Proof.
  rewrite transform_rows, in_map_iff. intros (c & <- & _). reflexivity.
Qed.

(** *** pd.cut on the two bin lists *)

Lemma cut_bmi (b : Q) :
  (0 < b <= 37 # 2 -> cut b bmi_bins bmi_labels = Some "Underweight"%string) /\
  (37 # 2 < b <= 25 -> cut b bmi_bins bmi_labels = Some "Normal"%string) /\
  (25 < b <= 30 -> cut b bmi_bins bmi_labels = Some "Overweight"%string) /\
  (30 < b <= 100 -> cut b bmi_bins bmi_labels = Some "Obese"%string) /\
  (b <= 0 \/ 100 < b -> cut b bmi_bins bmi_labels = None).
Proof.
  unfold cut, bmi_bins, bmi_labels, searchsorted_left.
  destruct (Qltb 0 b) eqn:E0; [destruct (Qltb (37 # 2) b) eqn:E1;
    [destruct (Qltb 25 b) eqn:E2; [destruct (Qltb 30 b) eqn:E3;
      [destruct (Qltb 100 b) eqn:E4|]|]|]|];
    qcmp; simpl; repeat split; intros; try reflexivity; exfalso; lra.
Qed.

Lemma cut_age (a : Z) :
  ((0 < a <= 25)%Z -> cut (inject_Z a) age_bins age_labels = Some "18-25"%string) /\
  ((25 < a <= 35)%Z -> cut (inject_Z a) age_bins age_labels = Some "26-35"%string) /\
  ((35 < a <= 45)%Z -> cut (inject_Z a) age_bins age_labels = Some "36-45"%string) /\
  ((45 < a <= 55)%Z -> cut (inject_Z a) age_bins age_labels = Some "46-55"%string) /\
  ((55 < a <= 100)%Z -> cut (inject_Z a) age_bins age_labels = Some "56+"%string) /\
  ((a <= 0 \/ 100 < a)%Z -> cut (inject_Z a) age_bins age_labels = None).
Proof.
  unfold cut, age_bins, age_labels, searchsorted_left.
  change 0 with (inject_Z 0). change 25 with (inject_Z 25).
  change 35 with (inject_Z 35). change 45 with (inject_Z 45).
  change 55 with (inject_Z 55). change 100 with (inject_Z 100).
  destruct (Qltb (inject_Z 0) (inject_Z a)) eqn:E0;
    [destruct (Qltb (inject_Z 25) (inject_Z a)) eqn:E1;
      [destruct (Qltb (inject_Z 35) (inject_Z a)) eqn:E2;
        [destruct (Qltb (inject_Z 45) (inject_Z a)) eqn:E3;
          [destruct (Qltb (inject_Z 55) (inject_Z a)) eqn:E4;
            [destruct (Qltb (inject_Z 100) (inject_Z a)) eqn:E5|]|]|]|]|];
    qcmp;
    repeat match goal with
      | H : inject_Z _ < inject_Z _ |- _ => rewrite <- Zlt_Qlt in H
      | H : inject_Z _ <= inject_Z _ |- _ => rewrite <- Zle_Qle in H
      end;
    simpl; repeat split; intros; try reflexivity; exfalso; lia.
Qed.

(** C1.  What [transform] assigns, against the breakpoints of the
    claim.  Strictly inside the bmi intervals of the claim every row gets
    the claim's class, and every age gets the claim's group.  On the
    three inner bmi breakpoints the code leaves the claim, because
    [pd.cut] closes its buckets on the right: a bmi of 18.5 is
    Underweight (claim: Normal), 25 is Normal (claim: Overweight) and 30
    is Overweight (claim: Obese).  Outside (0, 100] both cells are
    empty. *)
Theorem transform_bucket_assignment (data : list RawRecord) (r : ProcessedRecord) :
  In r (rows (transform data)) ->
  ((0 < bmi r < 37 # 2 -> bmi_category r = Some "Underweight"%string) /\
   (37 # 2 < bmi r < 25 -> bmi_category r = Some "Normal"%string) /\
   (25 < bmi r < 30 -> bmi_category r = Some "Overweight"%string) /\
   (30 < bmi r <= 100 -> bmi_category r = Some "Obese"%string) /\
   (bmi r <= 0 \/ 100 < bmi r -> bmi_category r = None)) /\
  ((bmi r == 37 # 2 -> bmi_category r = Some "Underweight"%string) /\
   (bmi r == 25 -> bmi_category r = Some "Normal"%string) /\
   (bmi r == 30 -> bmi_category r = Some "Overweight"%string)) /\
  (((0 < age r <= 25)%Z -> age_group r = Some "18-25"%string) /\
   ((25 < age r <= 35)%Z -> age_group r = Some "26-35"%string) /\
   ((35 < age r <= 45)%Z -> age_group r = Some "36-45"%string) /\
   ((45 < age r <= 55)%Z -> age_group r = Some "46-55"%string) /\
   ((55 < age r <= 100)%Z -> age_group r = Some "56+"%string) /\
   ((age r <= 0 \/ 100 < age r)%Z -> age_group r = None)).
Proof.
  intros Hin. apply transform_row_derived in Hin. rewrite Hin.
  cbn [bmi_category age_group derive base bmi age].
  destruct (cut_bmi (bmi (base r))) as (H1 & H2 & H3 & H4 & H5).
  split; [|split; [|apply cut_age]].
  - repeat split; intro H; [apply H1 | apply H2 | apply H3 | apply H4 | apply H5];
      lra.
  - repeat split; intro H; [apply H1 | apply H2 | apply H3]; lra.
Qed.

Lemma transform_bucket_assignment_witness :
  let r := derive (mkClean 40 "male" 30 1 "no" "southeast" 1500) in
  In r (rows (transform edge_rows)) /\
  bmi r == 30 /\
  bmi_category r = Some "Overweight"%string /\
  age_group r = Some "36-45"%string.
Proof.
  assert (Hin : In (derive (mkClean 40 "male" 30 1 "no" "southeast" 1500))
                   (rows (transform edge_rows)))
    by (right; right; left; reflexivity).
  split; [exact Hin|]. split; [reflexivity|].
  destruct (transform_bucket_assignment edge_rows _ Hin)
    as (_ & (_ & _ & Hb) & (_ & _ & Ha & _)).
  split.
  - apply Hb. reflexivity.
  - apply Ha. simpl. lia.
Defined.

(** The three rows on the inner bmi breakpoints: 18.5, 25 and 30 are
    labelled Underweight, Normal and Overweight; the ages 25 and 26 fall
    in 18-25 and 26-35. *)
Example transform_bmi_edges :
  map (fun r : ProcessedRecord => bmi r) (rows (transform edge_rows))
    = [37 # 2; 25; 30] /\
  map bmi_category (rows (transform edge_rows))
    = [Some "Underweight"; Some "Normal"; Some "Overweight"]%string /\
  map age_group (rows (transform edge_rows))
    = [Some "18-25"; Some "26-35"; Some "36-45"]%string.
Proof. repeat split. Qed.

Lemma int64_add_in_range (a b : Z) :
  (- 9223372036854775808 <= a + b <= int64_max)%Z -> int64_add a b = (a + b)%Z.
Proof.
  unfold int64_add, wrap_int64, int64_max. intro H.
  rewrite Z.mod_small by lia. lia.
Qed.

(** C7, as amended.  For every row of the processed frame with
    [0 <= children < 2^63 - 1], [charges_per_person] is the quotient of
    [charges] by [children + 1], a finite number. *)
Theorem transform_charges_per_person (data : list RawRecord) (r : ProcessedRecord) :
  In r (rows (transform data)) ->
  (0 <= children r < int64_max)%Z ->
  charges_per_person r = Finite (charges r / inject_Z (children r + 1)).
Proof.
  intros Hin Hc.
  assert (Hnz : ~ inject_Z (children r + 1) == 0).
  { change 0 with (inject_Z 0). rewrite inject_Z_injective. lia. }
  apply transform_row_derived in Hin. rewrite Hin at 1.
  cbn [charges_per_person derive fdiv base].
  change (children (base r)) with (children r).
  change (charges (base r)) with (charges r).
  rewrite int64_add_in_range by lia.
  destruct (Qeq_bool (inject_Z (children r + 1)) 0) eqn:E; [|reflexivity].
  apply Qeq_bool_iff in E. contradiction.
Qed.

Lemma transform_charges_per_person_witness :
  let r := derive (mkClean 26 "female" 25 2 "yes" "northeast" 20000) in
  In r (rows (transform edge_rows)) /\ (0 <= children r < int64_max)%Z /\
  charges_per_person r = Finite (20000 / inject_Z 3).
Proof.
  assert (Hin : In (derive (mkClean 26 "female" 25 2 "yes" "northeast" 20000))
                   (rows (transform edge_rows))) by (right; left; reflexivity).
  split; [exact Hin|]. split; [unfold int64_max; simpl; lia|].
  apply (transform_charges_per_person edge_rows _ Hin). unfold int64_max. simpl. lia.
Defined.

(** C7 as stated fails at the largest int64: with [children = 2^63 - 1]
    the int64 sum [children + 1] wraps to -2^63 and the quotient is
    negative, where [charges / (children + 1)] is positive. *)
Lemma transform_charges_per_person_counterexample :
  exists r : ProcessedRecord,
    rows (transform overflow_rows) = [r] /\
    (0 <= children r)%Z /\
    charges_per_person r = Finite (1500 / inject_Z (- 9223372036854775808)) /\
    1500 / inject_Z (- 9223372036854775808) < 0 /\
    0 < charges r / inject_Z (children r + 1).
Proof.
  eexists. split; [reflexivity|]. split; [discriminate|].
  split; [reflexivity|]. split; reflexivity.
Qed.

(** *** No filter on the categorical values *)

Lemma notna_complete_row (c : CleanRecord) : notna (complete_row c) = Some c.
Proof. destruct c. reflexivity. Qed.

Lemma notna_Some (raw : RawRecord) (c : CleanRecord) :
  notna raw = Some c -> raw = complete_row c.
Proof.
  destruct raw as [[a|] [s|] [b|] [ch|] [k|] [g|] [x|]]; unfold notna; simpl;
    intro H; try discriminate.
  injection H as <-. reflexivity.
Qed.

(** C4, as amended.  [transform] drops the rows with a missing cell and
    nothing else: the processed rows are, in input order, the rows of the
    input in which all seven cells are present, whatever strings their
    [sex], [smoker] and [region] cells hold. *)
Theorem transform_keeps_complete_rows (data : list RawRecord) :
  map base (rows (transform data)) = dropna data /\
  forall c : CleanRecord,
    In (complete_row c) data <-> In (derive c) (rows (transform data)).
Proof.
  split.
  - rewrite transform_rows, map_map. simpl. apply map_id.
  - intro c. rewrite transform_rows. split.
    + intro Hin. apply in_map. apply dropna_In.
      exists (complete_row c). split; [exact Hin | apply notna_complete_row].
    + rewrite in_map_iff. intros (c' & Hd & Hin).
      assert (c' = c) by (apply (f_equal base) in Hd; exact Hd). subst c'.
      apply dropna_In in Hin. destruct Hin as (raw & Hin & Hn).
      apply notna_Some in Hn. subst raw. exact Hin.
Qed.

Lemma transform_keeps_complete_rows_witness :
  In (derive (mkClean 41 "other" 27 1 "sometimes" "mars" 5000))
     (rows (transform odd_rows)).
Proof.
  apply (proj2 (transform_keeps_complete_rows odd_rows)).
  right. left. reflexivity.
Defined.

(** C4 as stated fails: a complete row with sex "other", smoker
    "sometimes" and region "mars" is in the processed frame (the row
    before it, which lacks a bmi, is not). *)
Lemma transform_out_of_domain_counterexample :
  exists r : ProcessedRecord,
    rows (transform odd_rows) = [r] /\
    ~ In (sex r) ["male"; "female"]%string /\
    ~ In (smoker r) ["yes"; "no"]%string /\
    region r = "mars"%string.
Proof.
  exists (derive (mkClean 41 "other" 27 1 "sometimes" "mars" 5000)).
  split; [reflexivity|].
  repeat split; simpl; intros [H | [H | []]]; discriminate.
Qed.

(** *** The smoker uplift *)

Lemma mean_nonempty (l : list Q) :
  (0 < Z.of_nat (List.length l))%Z -> mean l = Finite (Qsum l / Qlen l).
Proof. destruct l; simpl; [lia | reflexivity]. Qed.

Lemma mean_empty (l : list Q) :
  Z.of_nat (List.length l) = 0%Z -> mean l = NaN.
Proof. destruct l; simpl; [reflexivity | lia]. Qed.

Lemma fdiv_nan_r (x : float64) : fdiv x NaN = NaN.
Proof. destruct x; reflexivity. Qed.

Lemma fsub_nan_r (x : float64) : fsub x NaN = NaN.
Proof. destruct x; reflexivity. Qed.

(** C2, as amended.  With at least one smoker and one non-smoker row the
    two averages are the finite means of the two selections and
    [percentage_increase] is (smoker mean / non-smoker mean - 1) x 100 in
    float arithmetic, which is that rational number whenever the
    non-smoker mean is not zero.  Without a non-smoker row nothing is
    signalled: the method returns its dictionary, in which
    [non_smoker_avg], [difference] and [percentage_increase] are NaN. *)
Theorem analyze_smoker_impact_percentage (data : ProcessedFrame) :
  let impact := analyze_smoker_impact data in
  let s := Qsum (charges_where_smoker "yes" data)
           / Qlen (charges_where_smoker "yes" data) in
  let n := Qsum (charges_where_smoker "no" data)
           / Qlen (charges_where_smoker "no" data) in
  ((0 < smoker_count impact)%Z -> (0 < non_smoker_count impact)%Z ->
   smoker_avg impact = Finite s /\
   non_smoker_avg impact = Finite n /\
   percentage_increase impact
     = fmul (fsub (fdiv (Finite s) (Finite n)) (Finite 1)) (Finite 100) /\
   (~ n == 0 -> percentage_increase impact = Finite ((s / n - 1) * 100))) /\
  (non_smoker_count impact = 0%Z ->
   non_smoker_avg impact = NaN /\
   difference impact = NaN /\
   percentage_increase impact = NaN).
Proof.
  intros impact s n. subst impact. unfold analyze_smoker_impact. simpl. split.
  - intros Hs Hn.
    rewrite (mean_nonempty _ Hs), (mean_nonempty _ Hn). fold s n.
    repeat split. intro Hnz. simpl.
    destruct (Qeq_bool n 0) eqn:E; [|reflexivity].
    apply Qeq_bool_iff in E. contradiction.
  - intro Hn. rewrite (mean_empty _ Hn).
    rewrite fdiv_nan_r, fsub_nan_r. repeat split.
Qed.

Lemma analyze_smoker_impact_percentage_witness :
  percentage_increase (analyze_smoker_impact (transform scenario))
    = Finite ((20000 / 1 / (4500 / 2) - 1) * 100) /\
  percentage_increase (analyze_smoker_impact (transform smokers_only)) = NaN.
Proof.
  split.
  - apply (proj1 (analyze_smoker_impact_percentage (transform scenario)));
      simpl; try lia. discriminate.
  - apply (proj2 (analyze_smoker_impact_percentage (transform smokers_only))).
    reflexivity.
Defined.

(** C2 as stated fails without non-smokers: on two smoker rows the method
    returns normally, the non-smoker count is 0 and [percentage_increase]
    is NaN; no exception and no other sentinel comes out. *)
Lemma analyze_smoker_impact_nan_counterexample :
  let impact := {| smoker_avg := Finite (50000 # 2);
                   non_smoker_avg := NaN;
                   difference := NaN;
                   percentage_increase := NaN;
                   smoker_count := 2;
                   non_smoker_count := 0 |} in
  analyze_smoker_impact (transform smokers_only) = impact /\
  Store.analyze_smoker_impact (Store.mkAnalyzer 0%nat) smokers_store
    = Some (Ok impact, smokers_store).
Proof. split; reflexivity. Qed.

(** *** Group sizes *)

Section GroupSizes.

Variable c : Column.

Lemma in_group_iff (k : key) (r : ProcessedRecord) :
  in_group c k r = true <-> group_key c r = Some k.
Proof.
  unfold in_group, key_eqb. destruct (group_key c r) as [k'|].
  - destruct (key_eq_dec k' k); split; intro H; try congruence.
  - split; discriminate.
Qed.

Lemma sizes_sum_null (r : ProcessedRecord) (rs : list ProcessedRecord)
  (ks : list key) :
  group_key c r = None -> sizes_sum c (r :: rs) ks = sizes_sum c rs ks.
Proof.
  intro Hk. unfold sizes_sum. f_equal. apply map_ext. intro k.
  unfold group_size, in_group. simpl. unfold in_group. rewrite Hk. reflexivity.
Qed.

Lemma sizes_sum_keyed (r : ProcessedRecord) (rs : list ProcessedRecord)
  (k0 : key) (ks : list key) :
  group_key c r = Some k0 ->
  sizes_sum c (r :: rs) ks
    = (sizes_sum c rs ks + Z.of_nat (count_occ key_eq_dec ks k0))%Z.
Proof.
  intro Hk. unfold sizes_sum. induction ks as [|k ks IH]; simpl; [reflexivity|].
  rewrite IH. unfold group_size at 1 3. simpl. unfold in_group at 1.
  rewrite Hk. unfold key_eqb.
  destruct (key_eq_dec k0 k) as [E|E]; destruct (key_eq_dec k k0) as [E'|E'];
    try congruence; simpl List.length; lia.
Qed.

Lemma sizes_sum_nil (ks : list key) : sizes_sum c [] ks = 0%Z.
Proof.
  unfold sizes_sum.
  induction ks as [|k ks IH]; simpl; [reflexivity | exact IH].
Qed.

Lemma sizes_sum_keys (rs : list ProcessedRecord) (ks : list key) :
  NoDup ks ->
  (forall k, In k (keys_of c rs) -> In k ks) ->
  sizes_sum c rs ks = Z.of_nat (List.length (keys_of c rs)).
Proof.
  intros Hnd. induction rs as [|r rs IH]; intro Hcov.
  - apply sizes_sum_nil.
  - simpl in *. destruct (group_key c r) as [k0|] eqn:Hk.
    + rewrite (sizes_sum_keyed _ _ _ _ Hk).
      rewrite IH by (intros k Hin; apply Hcov; right; exact Hin).
      assert (Hin : In k0 ks) by (apply Hcov; left; reflexivity).
      rewrite (proj1 (NoDup_count_occ' key_eq_dec ks) Hnd k0 Hin).
      simpl List.length. lia.
    + rewrite (sizes_sum_null _ _ _ Hk). apply IH. exact Hcov.
Qed.

Lemma keys_of_length (rs : list ProcessedRecord) :
  List.length (keys_of c rs)
    = List.length (filter (fun r => match group_key c r with
                                    | Some _ => true
                                    | None => false
                                    end) rs).
Proof.
  induction rs as [|r rs IH]; simpl; [reflexivity|].
  destruct (group_key c r); simpl; congruence.
Qed.

Lemma keys_of_In (rs : list ProcessedRecord) (k : key) :
  In k (keys_of c rs) <-> exists r, In r rs /\ group_key c r = Some k.
Proof.
  induction rs as [|r rs IH]; simpl.
  - split; [tauto | intros (r & [] & _)].
  - destruct (group_key c r) as [k0|] eqn:Hk; simpl; rewrite IH; split.
    + intros [H | (r' & Hin & Hr')].
      * exists r. subst. auto.
      * exists r'. auto.
    + intros (r' & [H | Hin] & Hr').
      * subst. left. congruence.
      * right. exists r'. auto.
    + intros (r' & Hin & Hr'). exists r'. auto.
    + intros (r' & [H | Hin] & Hr').
      * subst. congruence.
      * exists r'. auto.
Qed.

End GroupSizes.

(** *** Categories and the group index *)

Lemma categories_of_NoDup (values : list string) : NoDup (categories_of values).
Proof.
  unfold categories_of.
  apply (Permutation_NoDup (StringSort.Permuted_sort _)). apply NoDup_nodup.
Qed.

Lemma categories_of_In (values : list string) (s : string) :
  In s (categories_of values) <-> In s values.
Proof.
  unfold categories_of. rewrite <- (nodup_In string_dec values s). split.
  - apply Permutation_in. apply Permutation_sym. apply StringSort.Permuted_sort.
  - apply Permutation_in. apply StringSort.Permuted_sort.
Qed.

Lemma cut_In_labels (x : Q) (bins : list Q) (labels : list string) (s : string) :
  cut x bins labels = Some s -> In s labels.
Proof.
  unfold cut. destruct (_ || _)%bool; [discriminate|]. apply nth_error_In.
Qed.

Lemma NoDup_map_KStr (l : list string) : NoDup l -> NoDup (map KStr l).
Proof.
  induction 1 as [|s l Hs _ IH]; simpl; constructor; [|exact IH].
  rewrite in_map_iff. intros (s' & E & Hin). injection E as ->. contradiction.
Qed.

Lemma category_key_In (cell : option string) (k : key) (labels : list string) :
  (forall s, cell = Some s -> In s labels) ->
  category_key cell = Some k -> In k (map KStr labels).
Proof.
  intros H. destruct cell as [s|]; simpl; [|discriminate].
  intro E. injection E as <-. apply in_map. apply H. reflexivity.
Qed.

Lemma bmi_labels_NoDup : NoDup bmi_labels.
Proof.
  unfold bmi_labels.
  repeat (constructor; [simpl; intuition discriminate|]). constructor.
Qed.

Lemma age_labels_NoDup : NoDup age_labels.
Proof.
  unfold age_labels.
  repeat (constructor; [simpl; intuition discriminate|]). constructor.
Qed.

Lemma transform_consistent (data : list RawRecord) : consistent (transform data).
Proof.
  intros c cats Hc. split.
  - destruct c; simpl in Hc; try discriminate; injection Hc as <-;
      first [apply categories_of_NoDup | apply bmi_labels_NoDup | apply age_labels_NoDup].
  - intros r k Hin Hk.
    pose proof (transform_row_derived _ _ Hin) as Hr.
    rewrite transform_rows, in_map_iff in Hin. destruct Hin as (c0 & <- & Hin).
    destruct c; simpl in Hc; try discriminate; injection Hc as <-; simpl in Hk.
    + injection Hk as <-. apply in_map. apply categories_of_In.
      apply in_map. exact Hin.
    + injection Hk as <-. apply in_map. apply categories_of_In.
      apply (in_map smoker). exact Hin.
    + injection Hk as <-. apply in_map. apply categories_of_In.
      apply (in_map region). exact Hin.
    + eapply category_key_In; [|exact Hk]. intros s. apply cut_In_labels.
    + eapply category_key_In; [|exact Hk]. intros s. apply cut_In_labels.
Qed.

Lemma group_index_NoDup (p : ProcessedFrame) (c : Column) :
  consistent p -> NoDup (group_index p c).
Proof.
  intro Hp. unfold group_index. destruct (categories p c) as [cats|] eqn:Hc.
  - apply NoDup_map_KStr. apply (Hp c cats Hc).
  - apply (Permutation_NoDup (KeySort.Permuted_sort _)). apply NoDup_nodup.
Qed.

Lemma group_index_cover (p : ProcessedFrame) (c : Column) (k : key) :
  consistent p -> In k (keys_of c (rows p)) -> In k (group_index p c).
Proof.
  intros Hp Hin. unfold group_index. destruct (categories p c) as [cats|] eqn:Hc.
  - apply keys_of_In in Hin. destruct Hin as (r & Hr & Hk).
    exact (proj2 (Hp c cats Hc) r k Hr Hk).
  - apply (Permutation_in _ (KeySort.Permuted_sort _)).
    apply nodup_In. exact Hin.
Qed.

Lemma charges_of_length (rs : list ProcessedRecord) :
  List.length (charges_of rs) = List.length rs.
Proof. apply length_map. Qed.

Lemma groupby_total_count (p : ProcessedFrame) (c : Column) :
  total_count (groupby_charges p c) = sizes_sum c (rows p) (group_index p c).
Proof.
  unfold total_count, groupby_charges, sizes_sum. rewrite map_map. f_equal.
  apply map_ext. intro k. simpl. unfold group_size.
  rewrite charges_of_length. reflexivity.
Qed.

(** A bucket cell is filled exactly when the value lies in (0, 100]. *)
Lemma cut_bmi_filled (b : Q) :
  match cut b bmi_bins bmi_labels with Some _ => true | None => false end
    = (Qltb 0 b && Qle_bool b 100)%bool.
Proof.
  destruct (cut_bmi b) as (H1 & H2 & H3 & H4 & H5).
  destruct (Qltb 0 b) eqn:E0; simpl.
  - destruct (Qle_bool b 100) eqn:E1.
    + apply Qltb_lt in E0. apply Qle_bool_iff in E1.
      destruct (Qlt_le_dec (37 # 2) b); [|rewrite H1; [reflexivity | lra]].
      destruct (Qlt_le_dec 25 b); [|rewrite H2; [reflexivity | lra]].
      destruct (Qlt_le_dec 30 b); [|rewrite H3; [reflexivity | lra]].
      rewrite H4; [reflexivity | lra].
    + rewrite H5; [reflexivity|]. right. apply Qltb_lt. unfold Qltb.
      rewrite E1. reflexivity.
  - rewrite H5; [reflexivity|]. left. apply Qltb_ge. exact E0.
Qed.

Lemma cut_age_filled (a : Z) :
  match cut (inject_Z a) age_bins age_labels with Some _ => true | None => false end
    = ((0 <? a)%Z && (a <=? 100)%Z)%bool.
Proof.
  destruct (cut_age a) as (H1 & H2 & H3 & H4 & H5 & H6).
  destruct (Z.ltb_spec 0 a); destruct (Z.leb_spec a 100); simpl;
    try (rewrite H6; [reflexivity | lia]).
  destruct (Z_lt_le_dec 25 a); [|rewrite H1; [reflexivity | lia]].
  destruct (Z_lt_le_dec 35 a); [|rewrite H2; [reflexivity | lia]].
  destruct (Z_lt_le_dec 45 a); [|rewrite H3; [reflexivity | lia]].
  destruct (Z_lt_le_dec 55 a); [|rewrite H4; [reflexivity | lia]].
  rewrite H5; [reflexivity | lia].
Qed.

Lemma derived_key_counted (c : Column) (r : ProcessedRecord) :
  r = derive (base r) ->
  match group_key c r with Some _ => true | None => false end = counted c r.
Proof.
  intro Hr. destruct c; simpl; try reflexivity.
  - rewrite Hr. simpl. rewrite <- cut_bmi_filled.
    destruct (cut _ _ _); reflexivity.
  - rewrite Hr. simpl. rewrite <- cut_age_filled.
    destruct (cut _ _ _); reflexivity.
  - destruct (charges_per_person r); reflexivity.
Qed.

Lemma never_null_counted (c : Column) (rs : list ProcessedRecord) :
  never_null c = true -> filter (counted c) rs = rs.
Proof.
  intro H. destruct c; try discriminate;
    (induction rs as [|r rs IH]; simpl; [reflexivity | now rewrite IH]).
Qed.

(** C3, as amended.  For every column name of the processed frame the
    group counts of [analyze_charges_by_factor] sum to the number of rows
    whose cell in that column is not null: all rows for the seven raw
    columns and [is_smoker]; for [bmi_category] (resp. [age_group]) the
    rows whose bmi (resp. age) lies in (0, 100]; for
    [charges_per_person] the rows where it is not NaN. *)
Theorem group_counts_sum (data : list RawRecord) (factor : string) (c : Column) :
  find_column factor = Some c ->
  exists table,
    analyze_charges_by_factor (transform data) factor = Ok table /\
    total_count table
      = Z.of_nat (List.length (filter (counted c) (rows (transform data)))) /\
    (never_null c = true ->
     total_count table = Z.of_nat (List.length (rows (transform data)))).
Proof.
  intro Hf. exists (groupby_charges (transform data) c).
  unfold analyze_charges_by_factor. rewrite Hf. split; [reflexivity|].
  assert (Hsum : total_count (groupby_charges (transform data) c)
                 = Z.of_nat (List.length (filter (counted c) (rows (transform data))))).
  { rewrite groupby_total_count.
    rewrite sizes_sum_keys.
    - rewrite keys_of_length. do 2 f_equal. apply filter_ext_in.
      intros r Hin. apply derived_key_counted.
      apply (transform_row_derived data). exact Hin.
    - apply group_index_NoDup. apply transform_consistent.
    - intros k. apply group_index_cover. apply transform_consistent. }
  split; [exact Hsum|].
  intro Hn. rewrite Hsum. rewrite never_null_counted by exact Hn. reflexivity.
Qed.

Lemma group_counts_sum_witness :
  exists table,
    analyze_charges_by_factor (transform scenario) "region" = Ok table /\
    total_count table = 3%Z.
Proof.
  destruct (group_counts_sum scenario "region" Region eq_refl)
    as (table & Ht & _ & Hall).
  exists table. split; [exact Ht|]. exact (Hall eq_refl).
Defined.

(** C3 as stated fails for [age_group]: of two processed rows the one
    aged 101 has no age group, and the counts sum to 1. *)
Lemma group_counts_age_group_counterexample :
  exists table,
    analyze_charges_by_factor (transform centenarian_rows) "age_group" = Ok table /\
    map (fun e => stat_count (snd e)) table = [0; 1; 0; 0; 0]%Z /\
    total_count table = 1%Z /\
    List.length (rows (transform centenarian_rows)) = 2%nat.
Proof.
  eexists. split; [reflexivity|]. split; [reflexivity|].
  split; reflexivity.
Qed.

Lemma filter_none {A : Type} (f : A -> bool) (l : list A) :
  (forall x, In x l -> f x = false) -> filter f l = [].
Proof.
  induction l as [|x l IH]; intro H; simpl; [reflexivity|].
  rewrite (H x (or_introl eq_refl)). apply IH.
  intros y Hy. apply H. right. exact Hy.
Qed.

(** C10.  For a frame with categorical columns ([sex], [smoker],
    [region], [bmi_category], [age_group]), be it the result of
    [transform] or a selection of its rows, the table of
    [analyze_charges_by_factor] has exactly one row per declared category
    of the column, in category order, whether or not a record has that
    level; the count of a level is the number of records with it, so a
    level no record has is reported with count 0.  The levels of
    [bmi_category] and [age_group] are the four and five labels of
    [transform], whatever the data. *)
Theorem categorical_factor_levels
  (data : ProcessedFrame) (factor : string) (c : Column) (cats : list string) :
  find_column factor = Some c ->
  categories data c = Some cats ->
  exists table,
    analyze_charges_by_factor data factor = Ok table /\
    map fst table = map KStr cats /\
    (c = BmiCategory -> cats = bmi_labels) /\
    (c = AgeGroup -> cats = age_labels) /\
    (forall s : string, In s cats -> exists stats, In (KStr s, stats) table) /\
    forall (s : string) (stats : GroupStatistics),
      In (KStr s, stats) table ->
      stat_count stats = group_size c (rows data) (KStr s) /\
      ((forall r, In r (rows data) -> group_key c r <> Some (KStr s)) ->
       stat_count stats = 0%Z).
Proof.
  intros Hf Hc. exists (groupby_charges data c).
  unfold analyze_charges_by_factor. rewrite Hf. split; [reflexivity|].
  assert (Hidx : map fst (groupby_charges data c) = map KStr cats).
  { unfold groupby_charges, group_index. rewrite Hc, map_map. simpl.
    apply map_id. }
  split; [exact Hidx|]. split; [|split; [|split]].
  - intros ->. simpl in Hc. congruence.
  - intros ->. simpl in Hc. congruence.
  - intros s Hs. apply (in_map KStr) in Hs. rewrite <- Hidx in Hs.
    rewrite in_map_iff in Hs. destruct Hs as ([k stats] & E & Hin).
    simpl in E. subst k. exists stats. exact Hin.
  - intros s stats Hin. unfold groupby_charges in Hin.
    rewrite in_map_iff in Hin. destruct Hin as (k & E & _).
    injection E as -> <-.
    assert (Hcount : stat_count
                       (aggregate (charges_of (filter (in_group c (KStr s))
                                                      (rows data))))
                     = group_size c (rows data) (KStr s)).
    { simpl. rewrite charges_of_length. reflexivity. }
    split; [exact Hcount|].
    intro Hnone. etransitivity; [exact Hcount|]. unfold group_size.
    rewrite filter_none; [reflexivity|].
    intros r Hr. destruct (in_group c (KStr s) r) eqn:E; [|reflexivity].
    apply in_group_iff in E. exfalso. exact (Hnone r Hr E).
Qed.

Lemma categorical_factor_levels_witness :
  exists (high_risk : ProcessedFrame) (table : list (key * GroupStatistics)),
    identify_high_risk_profiles (transform scenario) 100 = Ok high_risk /\
    analyze_charges_by_factor high_risk "smoker" = Ok table /\
    map fst table = map KStr ["no"; "yes"]%string /\
    forall stats, In (KStr "no", stats) table -> stat_count stats = 0%Z.
Proof.
  set (high_risk := select_rows (fun r : ProcessedRecord => Qle_bool 20000 (charges r))
                                (transform scenario)).
  destruct (categorical_factor_levels high_risk "smoker" Smoker ["no"; "yes"]%string
              eq_refl eq_refl)
    as (table & Ht & Hidx & _ & _ & _ & Hrows).
  exists high_risk, table. split; [reflexivity|]. split; [exact Ht|].
  split; [exact Hidx|].
  intros stats Hin. apply (Hrows _ _ Hin).
  intros r [<- | []]. discriminate.
Defined.

(** *** Order statistics *)

Lemma Qle_bool_trans : Transitive (fun x y => is_true (Qle_bool x y)).
Proof.
  intros x y z Hxy Hyz. unfold is_true in *.
  rewrite Qle_bool_iff in *. eapply Qle_trans; eassumption.
Qed.

Lemma sorted_nth_le (s : list Q) :
  StronglySorted (fun x y => is_true (Qle_bool x y)) s ->
  forall i j, (i <= j < List.length s)%nat -> nth i s 0 <= nth j s 0.
Proof.
  induction 1 as [|x s Hs IH Hx]; intros i j Hij; simpl in Hij; [lia|].
  destruct j as [|j].
  - assert (i = O) by lia. subst i. apply Qle_refl.
  - destruct i as [|i].
    + simpl. rewrite Forall_forall in Hx. apply Qle_bool_iff.
      apply Hx. apply nth_In. lia.
    + simpl. apply IH. lia.
Qed.

Section Percentile.

Variable values : list Q.
Hypothesis nonempty : values <> [].

Let s := QSort.sort values.

Lemma sort_length : List.length s = List.length values.
Proof.
  symmetry. apply Permutation_length. apply QSort.Permuted_sort.
Qed.

Lemma sort_length_pos : (0 < List.length s)%nat.
Proof.
  rewrite sort_length. destruct values; [contradiction | simpl; lia].
Qed.

Lemma sort_sorted : StronglySorted (fun x y => is_true (Qle_bool x y)) s.
Proof. apply QSort.StronglySorted_sort. exact Qle_bool_trans. Qed.

Lemma sort_In (x : Q) : In x values <-> In x s.
Proof.
  split; apply Permutation_in;
    [|apply Permutation_sym]; apply QSort.Permuted_sort.
Qed.


Lemma sort_last_ge (x : Q) : In x values -> x <= nth (List.length s - 1) s 0.
Proof.
  intro Hin. apply sort_In in Hin.
  destruct (In_nth s x 0 Hin) as (j & Hj & <-).
  apply sorted_nth_le; [exact sort_sorted | lia].
Qed.

Lemma sort_last_In : In (nth (List.length s - 1) s 0) values.
Proof. apply sort_In. apply nth_In. pose proof sort_length_pos. lia. Qed.



End Percentile.

(** *** High-risk profiles *)

Lemma charges_of_In (rs : list ProcessedRecord) (x : Q) :
  In x (charges_of rs) <-> exists r : ProcessedRecord, In r rs /\ charges r = x.
Proof.
  unfold charges_of. rewrite in_map_iff. split; intros (r & H1 & H2); exists r; auto.
Qed.

Lemma charges_of_nonempty (rs : list ProcessedRecord) :
  rs <> [] -> charges_of rs <> [].
Proof. destruct rs; [contradiction | discriminate]. Qed.

Lemma quantile_in_range (values : list Q) (q : Q) :
  values <> [] -> 0 <= q <= 1 ->
  quantile values q = Ok (Finite (percentile_linear values q)).
Proof.
  intros Hne [H0 H1]. unfold quantile.
  apply Qle_bool_iff in H0. apply Qle_bool_iff in H1. rewrite H0, H1. simpl.
  destruct values; [contradiction | reflexivity].
Qed.


(** The quotient of a percentile by 100, as the float division leaves
    it. *)

Lemma float64_underflow_small : 0 < float64_underflow /\ float64_underflow < 1.
Proof. split; reflexivity. Qed.

Lemma underflow_zero (q : Q) :
  - float64_underflow <= q <= float64_underflow -> underflow q = 0.
Proof.
  intros [H1 H2]. unfold underflow.
  apply Qle_bool_iff in H1. apply Qle_bool_iff in H2. rewrite H1, H2. reflexivity.
Qed.

Lemma underflow_same (q : Q) :
  q < - float64_underflow \/ float64_underflow < q -> underflow q = q.
Proof.
  intro H. unfold underflow.
  destruct (Qle_bool (- float64_underflow) q) eqn:E1; [|reflexivity].
  destruct (Qle_bool q float64_underflow) eqn:E2; [|reflexivity].
  apply Qle_bool_iff in E1. apply Qle_bool_iff in E2. exfalso.
  destruct H as [H | H]; lra.
Qed.

Lemma underflow_cases (q : Q) :
  (- float64_underflow <= q <= float64_underflow /\ underflow q = 0) \/
  ((q < - float64_underflow \/ float64_underflow < q) /\ underflow q = q).
Proof.
  destruct (Qlt_le_dec q (- float64_underflow)) as [H|H].
  - right. split; [left; exact H | apply underflow_same; left; exact H].
  - destruct (Qlt_le_dec float64_underflow q) as [H'|H'].
    + right. split; [right; exact H' | apply underflow_same; right; exact H'].
    + left. split; [split; assumption | apply underflow_zero; split; assumption].
Qed.

Lemma underflow_mono (q q' : Q) : q <= q' -> underflow q <= underflow q'.
Proof.
  intro H. pose proof float64_underflow_small as [Hu _].
  destruct (underflow_cases q) as [[Hq ->] | [Hq ->]];
    destruct (underflow_cases q') as [[Hq' ->] | [Hq' ->]];
    try lra; destruct Hq as [Hq | Hq]; try lra; destruct Hq' as [Hq' | Hq']; lra.
Qed.

Lemma percent_quotient (p : Q) : p / 100 * 100 == p.
Proof. field. Qed.

Lemma percent_in_unit (p : Q) : 0 <= p <= 100 -> 0 <= underflow (p / 100) <= 1.
Proof.
  intros [H0 H1]. pose proof (percent_quotient p) as E.
  pose proof float64_underflow_small as [Hu Hu1].
  destruct (underflow_cases (p / 100)) as [[_ ->] | [_ ->]]; lra.
Qed.

Lemma float64_overflow_large : 1 < float64_overflow.
Proof. reflexivity. Qed.

Lemma percent_finite (p : Q) :
  - (100 * float64_overflow) < p < 100 * float64_overflow ->
  percent p = Ok (underflow (p / 100)).
Proof.
  intros [Hlo Hhi]. pose proof (percent_quotient p) as E. unfold percent. cbv zeta.
  destruct (Qle_bool float64_overflow (p / 100)) eqn:E1.
  - apply Qle_bool_iff in E1. exfalso. lra.
  - destruct (Qle_bool (p / 100) (- float64_overflow)) eqn:E2; [|reflexivity].
    apply Qle_bool_iff in E2. exfalso. lra.
Qed.

Lemma percent_overflow (p : Q) :
  100 * float64_overflow <= p \/ p <= - (100 * float64_overflow) ->
  percent p = Raise (OverflowError "integer division result too large for a float").
Proof.
  intro H. pose proof (percent_quotient p) as E. unfold percent. cbv zeta.
  destruct H as [H | H].
  - assert (E1 : Qle_bool float64_overflow (p / 100) = true)
      by (apply Qle_bool_iff; lra).
    rewrite E1. reflexivity.
  - assert (E2 : Qle_bool (p / 100) (- float64_overflow) = true)
      by (apply Qle_bool_iff; lra).
    rewrite E2, orb_true_r. reflexivity.
Qed.

Lemma percent_served (p : Q) :
  - (100 * float64_underflow) <= p <= 100 -> percent p = Ok (underflow (p / 100)).
Proof.
  intros [Hlo Hhi]. apply percent_finite.
  pose proof float64_overflow_large. pose proof float64_underflow_small. lra.
Qed.

(** The method once the quotient is a float. *)
Lemma identify_finite (data : ProcessedFrame) (p : Q) :
  - (100 * float64_overflow) < p < 100 * float64_overflow ->
  identify_high_risk_profiles data p
  = match quantile (charges_of (rows data)) (underflow (p / 100)) with
    | Raise e => Raise e
    | Ok threshold =>
        Ok (select_rows (fun r => fge (Finite (charges r)) threshold) data)
    end.
Proof.
  intro H. unfold identify_high_risk_profiles. rewrite (percent_finite p H).
  reflexivity.
Qed.

Lemma identify_served (data : ProcessedFrame) (p : Q) :
  - (100 * float64_underflow) <= p <= 100 ->
  identify_high_risk_profiles data p
  = match quantile (charges_of (rows data)) (underflow (p / 100)) with
    | Raise e => Raise e
    | Ok threshold =>
        Ok (select_rows (fun r => fge (Finite (charges r)) threshold) data)
    end.
Proof.
  intros [Hlo Hhi]. apply identify_finite.
  pose proof float64_overflow_large. pose proof float64_underflow_small. lra.
Qed.

Lemma identify_percent (data : ProcessedFrame) (p : Q) :
  0 <= p <= 100 ->
  identify_high_risk_profiles data p
  = match quantile (charges_of (rows data)) (underflow (p / 100)) with
    | Raise e => Raise e
    | Ok threshold =>
        Ok (select_rows (fun r => fge (Finite (charges r)) threshold) data)
    end.
Proof.
  intros [Hlo Hhi]. apply identify_served.
  pose proof float64_underflow_small. lra.
Qed.



(** C8, as amended.  [identify_high_risk_profiles] raises ValueError and
    returns no frame when the float quotient of the percentile by 100 is
    above 1 or below zero: for a percentile above 100 and for one below
    -100 * 2^-1075.  (When the quotient is beyond the float64 range,
    which takes an int percentile of more than 300 digits, the division
    raises OverflowError before that.)  A negative percentile of
    magnitude at most 100 * 2^-1075 has the quotient -0.0 and is served
    as percentile 0; a percentile in [0, 100] is served. *)
Theorem high_risk_profiles_invalid_percentile (data : ProcessedFrame) (p : Q) :
  (- (100 * float64_overflow) < p < - (100 * float64_underflow) \/
   100 < p < 100 * float64_overflow ->
   exists msg : string, identify_high_risk_profiles data p = Raise (ValueError msg)) /\
  (p <= - (100 * float64_overflow) \/ 100 * float64_overflow <= p ->
   exists msg : string, identify_high_risk_profiles data p = Raise (OverflowError msg)) /\
  (- (100 * float64_underflow) <= p < 0 ->
   identify_high_risk_profiles data p = identify_high_risk_profiles data 0) /\
  (0 <= p <= 100 ->
   exists high_risk : ProcessedFrame, identify_high_risk_profiles data p = Ok high_risk).
Proof.
  pose proof (percent_quotient p) as E.
  pose proof float64_underflow_small as [Hu Hu1].
  pose proof float64_overflow_large as Hb.
  split; [|split; [|split]].
  - intro Hp. rewrite identify_finite by (destruct Hp; lra). unfold quantile.
    assert (Hsame : underflow (p / 100) = p / 100).
    { apply underflow_same. destruct Hp as [Hp | Hp]; [left | right]; lra. }
    rewrite Hsame.
    assert (Hout : (Qle_bool 0 (p / 100) && Qle_bool (p / 100) 1)%bool = false).
    { apply andb_false_iff. destruct Hp as [Hp | Hp]; [left | right].
      - destruct (Qle_bool 0 (p / 100)) eqn:E0; [|reflexivity].
        apply Qle_bool_iff in E0. exfalso. lra.
      - destruct (Qle_bool (p / 100) 1) eqn:E1; [|reflexivity].
        apply Qle_bool_iff in E1. exfalso. lra. }
    rewrite Hout. eexists. reflexivity.
  - intro Hp. unfold identify_high_risk_profiles.
    rewrite percent_overflow by tauto. eexists. reflexivity.
  - intros [Hlow Hneg]. rewrite !identify_served by (split; lra).
    rewrite (underflow_zero (p / 100)) by (split; lra).
    rewrite (underflow_zero (0 / 100)); [reflexivity|].
    split; apply Qle_bool_iff; vm_compute; reflexivity.
  - intro Hp. rewrite (identify_percent data p Hp).
    apply percent_in_unit in Hp. destruct Hp as [H0 H1]. unfold quantile.
    apply Qle_bool_iff in H0. apply Qle_bool_iff in H1. rewrite H0, H1.
    eexists. reflexivity.
Qed.

Lemma high_risk_profiles_invalid_percentile_witness :
  exists msg : string,
    identify_high_risk_profiles (transform scenario) 101 = Raise (ValueError msg).
Proof.
  apply (proj1 (high_risk_profiles_invalid_percentile (transform scenario) 101)).
  right. split; reflexivity.
Defined.

(** C8 as stated fails in two ways.  The percentile -2^-1074, the
    negative float64 nearest to zero, is below 0 and yet served: its
    quotient by 100 is -0.0, and the whole frame comes back.  And the
    error of a rejected percentile is no invalid-argument error of its
    own: for 101 it is a ValueError, the class
    [analyze_charges_by_factor] raises for an unknown factor, and for
    the int 10^400 it is the OverflowError of the division. *)
Lemma high_risk_profiles_underflow_counterexample :
  - (1 # 2 ^ 1074) < 0 /\
  identify_high_risk_profiles (transform scenario) (- (1 # 2 ^ 1074))
    = Ok (transform scenario) /\
  (exists msg : string,
      identify_high_risk_profiles (transform scenario) 101 = Raise (ValueError msg)) /\
  (exists msg : string,
      analyze_charges_by_factor (transform scenario) "height" = Raise (ValueError msg)) /\
  (exists msg : string,
      identify_high_risk_profiles (transform scenario) (inject_Z (10 ^ 400))
      = Raise (OverflowError msg)).
Proof.
  split; [reflexivity|]. split; [vm_compute; reflexivity|].
  split; [|split]; eexists; vm_compute; reflexivity.
Qed.

(** *** The correlation matrix *)

Lemma Qmult_comm_eq (x y : Q) : Qmult x y = Qmult y x.
Proof.
  unfold Qmult. f_equal; [apply Z.mul_comm | apply Pos.mul_comm].
Qed.

Lemma finite_pairs_swap (xs ys : list float64) :
  finite_pairs ys xs = map (fun p => (snd p, fst p)) (finite_pairs xs ys).
Proof.
  revert ys. induction xs as [|x xs IH]; intros [|y ys]; simpl; try reflexivity.
  destruct (isfinite x), (isfinite y); simpl; rewrite IH; reflexivity.
Qed.

Lemma comoment_swap (obs : list (Q * Q)) :
  comoment fst snd (map (fun p => (snd p, fst p)) obs) = comoment fst snd obs /\
  comoment fst fst (map (fun p => (snd p, fst p)) obs) = comoment snd snd obs /\
  comoment snd snd (map (fun p => (snd p, fst p)) obs) = comoment fst fst obs.
Proof.
  unfold comoment. rewrite !map_map. simpl.
  repeat split. f_equal. apply map_ext. intro p. apply Qmult_comm_eq.
Qed.

Lemma nancorr_sym (xs ys : list float64) : nancorr ys xs = nancorr xs ys.
Proof.
  unfold nancorr. rewrite (finite_pairs_swap xs ys).
  destruct (finite_pairs xs ys) as [|p obs]; [reflexivity|].
  cbn [map]. cbv beta iota.
  change ((snd p, fst p) :: map (fun p0 : Q * Q => (snd p0, fst p0)) obs)
    with (map (fun p0 : Q * Q => (snd p0, fst p0)) (p :: obs)).
  destruct (comoment_swap (p :: obs)) as (-> & -> & ->).
  rewrite (Qmult_comm_eq (comoment snd snd (p :: obs))). reflexivity.
Qed.

Lemma corr_entry_sym (data : ProcessedFrame) (a b : Column) :
  corr_entry data b a = corr_entry data a b.
Proof. unfold corr_entry. rewrite nancorr_sym. reflexivity. Qed.

Lemma is_number_cases (data : ProcessedFrame) :
  (numeric data = true /\
   filter (is_number data) columns
     = [Age; Bmi; Children; Charges; IsSmoker; ChargesPerPerson]) \/
  (numeric data = false /\ filter (is_number data) columns = [IsSmoker]).
Proof.
  unfold is_number, dtype_of, columns. cbn [filter].
  destruct (numeric data); [left | right]; split; reflexivity.
Qed.

Lemma correlation_table_entry (data : ProcessedFrame) (a b : Column) :
  is_number data a = true -> is_number data b = true ->
  table_entry (correlation_analysis data) (column_name a) (column_name b)
    = Some (corr_entry data a b).
Proof.
  intros Ha Hb. unfold correlation_analysis. cbv zeta.
  unfold is_number, dtype_of in Ha, Hb.
  destruct (is_number_cases data) as [[En ->] | [En ->]]; rewrite En in Ha, Hb;
    destruct a; try discriminate; destruct b; try discriminate; reflexivity.
Qed.

Lemma round_correlation_grid (scale : positive) (r : correlation) :
  round_correlation scale r = NaN \/
  exists k : Z, round_correlation scale r = Finite (Qred (k # scale)).
Proof.
  destruct r as [|covxy ssq]; simpl; [left; reflexivity | right].
  eexists. reflexivity.
Qed.

Lemma finite_values_In (xs : list float64) (q : Q) :
  In q (finite_values xs) <-> In (Finite q) xs.
Proof.
  induction xs as [|x xs IH]; simpl; [tauto|].
  destruct x; simpl; rewrite IH; split; intros H;
    try (right; exact H); try (destruct H as [H|H]; [discriminate | exact H]).
  - destruct H as [H|H]; [left; congruence | right; exact H].
  - destruct H as [H|H]; [left; congruence | right; exact H].
Qed.

Lemma finite_pairs_diag (xs : list float64) :
  finite_pairs xs xs = map (fun q => (q, q)) (finite_values xs).
Proof.
  induction xs as [|x xs IH]; simpl; [reflexivity|].
  destruct (isfinite x); simpl; rewrite IH; reflexivity.
Qed.

Lemma comoment_diag (vals : list Q) :
  comoment fst fst (map (fun q => (q, q)) vals) = ssqdm vals /\
  comoment snd snd (map (fun q => (q, q)) vals) = ssqdm vals /\
  comoment fst snd (map (fun q => (q, q)) vals) = ssqdm vals.
Proof.
  unfold comoment, ssqdm. rewrite !map_map. simpl. rewrite map_id.
  repeat split.
Qed.

Lemma nancorr_diag (xs : list float64) :
  nancorr xs xs =
  match finite_values xs with
  | [] => CorrNaN
  | vals =>
      if Qeq_bool (ssqdm vals * ssqdm vals) 0
      then CorrNaN
      else CorrRatio (ssqdm vals) (ssqdm vals * ssqdm vals)
  end.
Proof.
  unfold nancorr. rewrite finite_pairs_diag.
  destruct (finite_values xs) as [|v vals]; [reflexivity|].
  cbn [map]. cbv beta iota.
  change ((v, v) :: map (fun q : Q => (q, q)) vals)
    with (map (fun q : Q => (q, q)) (v :: vals)).
  destruct (comoment_diag (v :: vals)) as (-> & -> & ->). reflexivity.
Qed.

(** Sums of rationals. *)

Lemma Qsum_nonneg (l : list Q) : (forall t, In t l -> 0 <= t) -> 0 <= Qsum l.
Proof.
  induction l as [|x l IH]; intro H; simpl; [apply Qle_refl|].
  assert (0 <= x) by (apply H; left; reflexivity).
  assert (0 <= Qsum l) by (apply IH; intros t Ht; apply H; right; exact Ht).
  lra.
Qed.

Lemma Qsum_ge_term (l : list Q) (t : Q) :
  (forall u, In u l -> 0 <= u) -> In t l -> t <= Qsum l.
Proof.
  induction l as [|x l IH]; intros H Hin; simpl; [destruct Hin|].
  assert (0 <= x) by (apply H; left; reflexivity).
  assert (Hl : forall u, In u l -> 0 <= u) by (intros u Hu; apply H; right; exact Hu).
  pose proof (Qsum_nonneg l Hl).
  destruct Hin as [-> | Hin].
  - lra.
  - pose proof (IH Hl Hin). lra.
Qed.

Lemma Qsum_zero (l : list Q) : (forall t, In t l -> t == 0) -> Qsum l == 0.
Proof.
  induction l as [|x l IH]; intro H; simpl; [reflexivity|].
  rewrite (H x (or_introl eq_refl)), IH; [ring|].
  intros t Ht. apply H. right. exact Ht.
Qed.

Lemma Qsum_const (l : list Q) (v : Q) :
  (forall x, In x l -> x == v) -> Qsum l == Qlen l * v.
Proof.
  unfold Qlen. induction l as [|x l IH]; intro H.
  - simpl. ring.
  - cbn [Qsum fold_right List.length]. fold (Qsum l).
    rewrite (H x (or_introl eq_refl)), IH by (intros y Hy; apply H; right; exact Hy).
    rewrite Nat2Z.inj_succ. unfold Z.succ. rewrite inject_Z_plus. ring.
Qed.

Lemma Qlen_pos (l : list Q) : l <> [] -> 0 < Qlen l.
Proof.
  intro H. unfold Qlen. change 0 with (inject_Z 0). rewrite <- Zlt_Qlt.
  destruct l; [contradiction | simpl; lia].
Qed.

Lemma square_nonneg (x : Q) : 0 <= x * x.
Proof. nra. Qed.

Lemma square_pos (x : Q) : ~ x == 0 -> 0 < x * x.
Proof.
  intro H. destruct (Qlt_le_dec 0 (x * x)) as [Hlt|Hle]; [exact Hlt|].
  exfalso. apply H. pose proof (square_nonneg x).
  assert (E : x * x == 0) by (apply Qle_antisym; assumption).
  apply Qmult_integral in E. tauto.
Qed.

Lemma ssqdm_terms_nonneg (l : list Q) (m u : Q) :
  In u (map (fun x => (x - m) * (x - m)) l) -> 0 <= u.
Proof.
  rewrite in_map_iff. intros (x & <- & _). apply square_nonneg.
Qed.

Lemma ssqdm_pos (l : list Q) (a b : Q) :
  In a l -> In b l -> ~ a == b -> 0 < ssqdm l.
Proof.
  intros Ha Hb Hab. unfold ssqdm. set (m := meanq l).
  assert (Hx : exists x, In x l /\ ~ x == m).
  { destruct (Qeq_dec a m) as [Ea|Ea]; [|exists a; auto].
    exists b. split; [exact Hb|]. intro Eb. apply Hab. rewrite Ea, Eb. reflexivity. }
  destruct Hx as (x & Hx & Hxm).
  apply Qlt_le_trans with ((x - m) * (x - m)).
  - apply square_pos. intro E. apply Hxm. lra.
  - apply Qsum_ge_term; [apply ssqdm_terms_nonneg|].
    apply (in_map (fun x => (x - m) * (x - m))). exact Hx.
Qed.

Lemma ssqdm_constant (l : list Q) (v : Q) :
  l <> [] -> (forall x, In x l -> x == v) -> ssqdm l == 0.
Proof.
  intros Hne Hv. unfold ssqdm.
  assert (Hm : meanq l == v).
  { unfold meanq. rewrite (Qsum_const l v Hv).
    pose proof (Qlen_pos l Hne). field. intro E. lra. }
  apply Qsum_zero. intros t. rewrite in_map_iff. intros (x & <- & Hx).
  rewrite Hm, (Hv x Hx). ring.
Qed.

Lemma round_sqrt_comp (t t' : Q) : t == t' -> round_sqrt t = round_sqrt t'.
Proof.
  intro E. unfold round_sqrt. rewrite (Qfloor_comp _ _ E).
  set (f := Z.sqrt (Qfloor t')).
  rewrite (Qcompare_comp t t' E _ _ (Qeq_refl _)). reflexivity.
Qed.

Lemma round_correlation_one (s : Q) :
  0 < s -> round_correlation 1000 (CorrRatio s (s * s)) = Finite 1.
Proof.
  intro Hs. unfold round_correlation.
  assert (E : s * s / (s * s) * inject_Z (1000 * 1000) == inject_Z 1000000).
  { change (inject_Z (1000 * 1000)) with (inject_Z 1000000). field. intro; lra. }
  rewrite (round_sqrt_comp _ _ E).
  apply Qgt_alt in Hs. rewrite Hs. reflexivity.
Qed.

Lemma corr_entry_diag (data : ProcessedFrame) (a : Column) :
  (varies (column_values a data) -> corr_entry data a a = Finite 1) /\
  (~ varies (column_values a data) -> corr_entry data a a = NaN).
Proof.
  unfold corr_entry. rewrite nancorr_diag.
  set (xs := column_values a data). split.
  - intros (x & y & Hx & Hy & Hxy).
    apply finite_values_In in Hx. apply finite_values_In in Hy.
    pose proof (ssqdm_pos _ x y Hx Hy Hxy) as Hpos.
    destruct (finite_values xs) as [|v vals] eqn:Ev; [destruct Hx|].
    cbv zeta.
    destruct (Qeq_bool (ssqdm (v :: vals) * ssqdm (v :: vals)) 0) eqn:E.
    + apply Qeq_bool_iff in E. apply Qmult_integral in E. exfalso.
      destruct E as [E|E]; rewrite E in Hpos; discriminate.
    + apply round_correlation_one. exact Hpos.
  - intro Hconst.
    destruct (finite_values xs) as [|v vals] eqn:Ev; [reflexivity|].
    cbv zeta.
    assert (Hz : ssqdm (v :: vals) == 0).
    { apply (ssqdm_constant _ v); [discriminate|].
      intros x Hx. destruct (Qeq_dec x v) as [E|E]; [exact E|].
      exfalso. apply Hconst. exists x, v.
      rewrite <- !finite_values_In, Ev. repeat split; auto. left. reflexivity. }
    assert (E : Qeq_bool (ssqdm (v :: vals) * ssqdm (v :: vals)) 0 = true).
    { apply Qeq_bool_iff. rewrite Hz. reflexivity. }
    rewrite E. reflexivity.
Qed.

(** C6, as amended.  [correlation_analysis] returns a table whose rows
    and columns are exactly the columns of a number dtype, in column
    order (the six of a file with rows; [is_smoker] alone when the file
    had a header line only and its columns were read as objects); it is
    symmetric; every entry is NaN or a multiple of 0.001; the diagonal
    entry of a column is 1.0 when the column varies (two of its finite
    cells differ) and NaN when it does not. *)
Theorem correlation_matrix_properties (data : ProcessedFrame) :
  let matrix := correlation_analysis data in
  let names := map column_name (filter (is_number data) columns) in
  map fst matrix = names /\
  (forall row, In row matrix -> map fst (snd row) = names) /\
  (forall c : Column, In (column_name c) names <-> dtype_of data c = NumberDtype) /\
  (numeric data = true -> names = numeric_names) /\
  (numeric data = false -> names = ["is_smoker"]%string) /\
  forall a b : Column,
    is_number data a = true -> is_number data b = true ->
    exists v : float64,
      table_entry matrix (column_name a) (column_name b) = Some v /\
      table_entry matrix (column_name b) (column_name a) = Some v /\
      (v = NaN \/ exists k : Z, v = Finite (Qred (k # 1000))) /\
      (a = b ->
       (varies (column_values a data) -> v = Finite 1) /\
       (~ varies (column_values a data) -> v = NaN)).
Proof.
  intros matrix names. split; [|split; [|split; [|split; [|split]]]].
  - unfold matrix, names, correlation_analysis. cbv zeta.
    rewrite !map_map. reflexivity.
  - intros row Hin. unfold matrix, correlation_analysis in Hin. cbv zeta in Hin.
    rewrite in_map_iff in Hin. destruct Hin as (a & <- & _).
    unfold names. cbn [snd]. rewrite !map_map. reflexivity.
  - intro c. unfold names. rewrite in_map_iff. split.
    + intros (c' & E & Hin). apply filter_In in Hin. destruct Hin as [_ Hn].
      assert (c' = c) by (destruct c', c; simpl in E; congruence). subst c'.
      unfold is_number in Hn. destruct (dtype_of data c); [reflexivity | | ];
        discriminate.
    + intro Hd. exists c. split; [reflexivity|]. apply filter_In. split.
      * destruct c; simpl; tauto.
      * unfold is_number. rewrite Hd. reflexivity.
  - intro Hn. unfold names.
    destruct (is_number_cases data) as [[_ ->] | [E _]]; [reflexivity | congruence].
  - intro Hn. unfold names.
    destruct (is_number_cases data) as [[E _] | [_ ->]]; [congruence | reflexivity].
  - intros a b Ha Hb. exists (corr_entry data a b). split; [|split; [|split]].
    + apply correlation_table_entry; assumption.
    + unfold matrix. rewrite correlation_table_entry by assumption.
      f_equal. apply corr_entry_sym.
    + apply round_correlation_grid.
    + intros <-. apply corr_entry_diag.
Qed.

Lemma correlation_matrix_properties_witness :
  map fst (correlation_analysis (transform scenario)) = numeric_names /\
  map fst (correlation_analysis (transform [])) = ["is_smoker"]%string /\
  exists v : float64,
    table_entry (correlation_analysis (transform scenario)) "age" "age" = Some v /\
    v = Finite 1.
Proof.
  destruct (correlation_matrix_properties (transform scenario))
    as (Hrows & _ & _ & Hsix & _ & H).
  destruct (correlation_matrix_properties (transform []))
    as (Hrows' & _ & _ & _ & Hone & _).
  split; [rewrite Hrows; apply Hsix; reflexivity|].
  split; [rewrite Hrows'; apply Hone; reflexivity|].
  destruct (H Age Age eq_refl eq_refl) as (v & Hv & _ & _ & Hd).
  exists v. split; [exact Hv|].
  apply (proj1 (Hd eq_refl)).
  exists (inject_Z 30), (inject_Z 50). split; [left; reflexivity|].
  split; [right; left; reflexivity | discriminate].
Defined.

(** C6 as stated fails on the diagonal: with two non-smokers the
    [is_smoker] column is constant and its diagonal entry is NaN, not
    1.0. *)
Lemma correlation_diagonal_counterexample :
  map is_smoker (rows (transform centenarian_rows)) = [0; 0]%Z /\
  table_entry (correlation_analysis (transform centenarian_rows))
              "is_smoker" "is_smoker" = Some NaN.
Proof. split; reflexivity. Qed.

(** *** The store: what the methods write *)

Lemma preserved_refl (st : Store.State) : Store.preserved st st.
Proof. intros l f H. exact H. Qed.

Lemma preserved_trans (st1 st2 st3 : Store.State) :
  Store.preserved st1 st2 -> Store.preserved st2 st3 -> Store.preserved st1 st3.
Proof. intros H12 H23 l f H. apply H23, H12, H. Qed.

Lemma nth_error_snoc_old {A : Type} (h : list A) (x f : A) (l : nat) :
  nth_error h l = Some f -> nth_error (h ++ [x]) l = Some f.
Proof.
  intro H. rewrite nth_error_app1; [exact H|].
  apply nth_error_Some. congruence.
Qed.

Lemma nth_error_snoc_new {A : Type} (h : list A) (x : A) :
  nth_error (h ++ [x]) (List.length h) = Some x.
Proof. rewrite nth_error_app2, Nat.sub_diag; [reflexivity | lia]. Qed.

Lemma nth_error_update_same (h : list Store.DataFrame) (l : Store.loc)
  (f : Store.DataFrame) :
  (l < List.length h)%nat -> nth_error (Store.update l f h) l = Some f.
Proof.
  revert l. induction h as [|g h IH]; intros [|l] Hl; simpl in *; try lia.
  - reflexivity.
  - apply IH. lia.
Qed.

Lemma nth_error_update_other (h : list Store.DataFrame) (l l' : Store.loc)
  (f : Store.DataFrame) :
  l <> l' -> nth_error (Store.update l f h) l' = nth_error h l'.
Proof.
  revert l l'. induction h as [|g h IH]; intros [|l] [|l'] Hneq; simpl;
    try reflexivity; try congruence.
  apply IH. congruence.
Qed.

Lemma load_found (st : Store.State) (l : Store.loc) (f : Store.DataFrame) :
  nth_error (Store.heap st) l = Some f -> Store.load l st = Some (Ok f, st).
Proof. intro H. unfold Store.load. rewrite H. reflexivity. Qed.

Lemma self_data_found (st : Store.State) (self : Store.Analyzer) (p : ProcessedFrame) :
  nth_error (Store.heap st) (Store.data self) = Some (Store.Processed p) ->
  Store.self_data self st = Some (Ok p, st).
Proof.
  intro H. unfold Store.self_data, Store.bind. rewrite (load_found _ _ _ H).
  reflexivity.
Qed.

(** [data.copy()] followed by the rest of [transform], from the address
    of a raw frame. *)
Lemma transform_from (st : Store.State) (l : Store.loc) (d : list RawRecord) :
  nth_error (Store.heap st) l = Some (Store.RawFrame d) ->
  let l' := S (List.length (Store.heap st)) in
  let st' := Store.mkState
               (Store.update l' (Store.Processed (transform d))
                  ((Store.heap st ++ [Store.RawFrame d])
                     ++ [Store.CleanFrame (read_numeric d) (dropna d)]))
               (Store.raw_data st) (Some l') in
  Store.transform (Some l) st = Some (Ok l', st').
Proof.
  intro Hl. unfold Store.transform, Store.bind at 1 2 3 4.
  unfold Store.copy, Store.bind at 1. rewrite (load_found _ _ _ Hl).
  unfold Store.alloc at 1. cbn [Store.heap Store.raw_data Store.processed_data].
  unfold Store.dropna, Store.bind at 1, Store.load at 1.
  cbn [Store.heap]. rewrite nth_error_snoc_new.
  unfold Store.alloc at 1. cbn [Store.heap Store.raw_data Store.processed_data].
  unfold Store.assign_columns, Store.bind at 1, Store.load at 1.
  cbn [Store.heap].
  replace (List.length (Store.heap st ++ [Store.RawFrame d]))
    with (S (List.length (Store.heap st))) by (rewrite length_app; simpl; lia).
  replace (S (List.length (Store.heap st)))
    with (List.length (Store.heap st ++ [Store.RawFrame d])) at 1
    by (rewrite length_app; simpl; lia).
  rewrite nth_error_snoc_new. reflexivity.
Qed.

Lemma transform_preserves (st : Store.State) (d : list RawRecord) :
  Store.preserved st
    (Store.mkState
       (Store.update (S (List.length (Store.heap st)))
          (Store.Processed (transform d))
          ((Store.heap st ++ [Store.RawFrame d])
             ++ [Store.CleanFrame (read_numeric d) (dropna d)]))
       (Store.raw_data st) (Some (S (List.length (Store.heap st))))).
Proof.
  intros k f Hk. cbn [Store.heap].
  assert (Hlt : (k < List.length (Store.heap st))%nat)
    by (apply nth_error_Some; congruence).
  rewrite nth_error_update_other by lia.
  apply nth_error_snoc_old, nth_error_snoc_old. exact Hk.
Qed.

(** C9.  No operation writes into its input.  [transform], given the
    address of a raw frame (as argument, or in [self.raw_data]), returns
    the address of a new object holding the processed frame, and every
    object of the store before the call, the raw frame included, is
    unchanged after it.  Each analyzer method run on a processed frame
    returns its result and leaves every object of the store unchanged;
    [identify_high_risk_profiles] puts its selection in a new object. *)
Theorem operations_preserve_their_input :
  (forall (st : Store.State) (arg : option Store.loc) (l : Store.loc)
          (d : list RawRecord),
      nth_error (Store.heap st) l = Some (Store.RawFrame d) ->
      arg = Some l \/ (arg = None /\ Store.raw_data st = Some l) ->
      exists (l' : Store.loc) (st' : Store.State),
        Store.transform arg st = Some (Ok l', st') /\
        nth_error (Store.heap st) l' = None /\
        nth_error (Store.heap st') l' = Some (Store.Processed (transform d)) /\
        nth_error (Store.heap st') l = Some (Store.RawFrame d) /\
        Store.preserved st st') /\
  (forall (T : Type) (describe : ProcessedFrame -> T)
          (st : Store.State) (self : Store.Analyzer) (p : ProcessedFrame)
          (factor : string) (percentile : Q),
      nth_error (Store.heap st) (Store.data self) = Some (Store.Processed p) ->
      Store.get_basic_statistics describe self st = Some (Ok (describe p), st) /\
      Store.analyze_charges_by_factor self factor st
        = Some (analyze_charges_by_factor p factor, st) /\
      Store.analyze_smoker_impact self st = Some (Ok (analyze_smoker_impact p), st) /\
      Store.correlation_analysis self st = Some (Ok (correlation_analysis p), st) /\
      Store.get_key_insights self st = Some (get_key_insights p, st) /\
      exists (r : result Store.loc) (st' : Store.State),
        Store.identify_high_risk_profiles self percentile st = Some (r, st') /\
        Store.preserved st st' /\
        nth_error (Store.heap st') (Store.data self) = Some (Store.Processed p) /\
        forall high_risk : ProcessedFrame,
          identify_high_risk_profiles p percentile = Ok high_risk ->
          exists l' : Store.loc,
            r = Ok l' /\ nth_error (Store.heap st) l' = None /\
            nth_error (Store.heap st') l' = Some (Store.Processed high_risk)).
Proof.
  split.
  - intros st arg l d Hl Harg.
    assert (Hrun : Store.transform arg st = Store.transform (Some l) st).
    { destruct Harg as [-> | [-> Hraw]]; [reflexivity|].
      unfold Store.transform, Store.bind, Store.get_raw_data. cbv beta.
      rewrite Hraw. reflexivity. }
    rewrite Hrun, (transform_from st l d Hl). cbv zeta.
    eexists. eexists. split; [reflexivity|].
    pose proof (transform_preserves st d) as Hpres.
    split; [|split; [|split]].
    + apply nth_error_None. lia.
    + cbn [Store.heap]. apply nth_error_update_same.
      rewrite !length_app. simpl. lia.
    + apply Hpres. exact Hl.
    + exact Hpres.
  - intros T describe st self p factor percentile Hp.
    pose proof (self_data_found st self p Hp) as Hself.
    repeat split;
      try (unfold Store.get_basic_statistics, Store.analyze_charges_by_factor,
             Store.analyze_smoker_impact, Store.correlation_analysis,
             Store.get_key_insights, Store.bind;
           rewrite Hself; reflexivity).
    unfold Store.identify_high_risk_profiles, Store.bind. rewrite Hself.
    unfold Store.lift.
    destruct (identify_high_risk_profiles p percentile) as [high_risk | e].
    + eexists. eexists. split; [reflexivity|]. split; [|split].
      * intros k f Hk. cbn [Store.heap]. apply nth_error_snoc_old. exact Hk.
      * cbn [Store.heap]. apply nth_error_snoc_old. exact Hp.
      * intros hr Ehr. injection Ehr as <-. eexists. split; [reflexivity|].
        split; [apply nth_error_None; lia|].
        cbn [Store.heap]. apply nth_error_snoc_new.
    + eexists. eexists. split; [reflexivity|]. split; [apply preserved_refl|].
      split; [exact Hp|]. intros hr Ehr. discriminate.
Qed.

Lemma operations_preserve_their_input_witness :
  (exists (l' : Store.loc) (st' : Store.State),
      Store.transform None raw_store = Some (Ok l', st') /\
      nth_error (Store.heap st') 0%nat = Some (Store.RawFrame scenario)) /\
  Store.analyze_smoker_impact (Store.mkAnalyzer 0%nat) processed_store
    = Some (Ok (analyze_smoker_impact (transform scenario)), processed_store).
Proof.
  split.
  - destruct (proj1 operations_preserve_their_input raw_store None 0%nat scenario
                eq_refl (or_intror (conj eq_refl eq_refl)))
      as (l' & st' & Hrun & _ & _ & Hraw & _).
    exists l', st'. split; [exact Hrun | exact Hraw].
  - apply (proj2 operations_preserve_their_input unit (fun _ => tt) processed_store
             (Store.mkAnalyzer 0%nat) (transform scenario) "region"%string 75 eq_refl).
Defined.

(* ================================================================== *)
(** * Further properties *)

(** ** transform *)

Lemma notna_isna_any (r : RawRecord) :
  isna_any r = match notna r with Some _ => false | None => true end.
Proof.
  destruct r as [[a|] [s|] [b|] [c|] [k|] [g|] [x|]]; reflexivity.
Qed.

(** X1.  [transform] removes exactly the rows with a missing cell: the
    number of processed rows plus the number of input rows with a missing
    cell is the number of input rows (the "removed rows" it reports). *)
Theorem transform_row_count (data : list RawRecord) :
  (List.length (rows (transform data)) + List.length (filter isna_any data)
   = List.length data)%nat.
Proof.
  rewrite transform_rows, length_map.
  induction data as [|r data IH]; simpl; [reflexivity|].
  rewrite notna_isna_any. destruct (notna r); simpl; lia.
Qed.


Lemma categories_of_ascending (values : list string) :
  ascending (categories_of values).
Proof. unfold ascending, categories_of. apply StringSort.Sorted_sort. Qed.

Lemma categories_of_column (f : CleanRecord -> string) (data : list RawRecord)
  (s : string) :
  In s (categories_of (map f (dropna data)))
  <-> exists r : ProcessedRecord, In r (rows (transform data)) /\ f r = s.
Proof.
  rewrite categories_of_In, in_map_iff, transform_rows. split.
  - intros (c & <- & Hc). exists (derive c). split; [apply in_map; exact Hc | reflexivity].
  - intros (r & Hr & <-). rewrite in_map_iff in Hr. destruct Hr as (c & <- & Hc).
    exists c. split; [reflexivity | exact Hc].
Qed.

(** X2.  The categories that [astype('category')] gives to [sex],
    [smoker] and [region] are exactly the values that occur in the
    processed rows, each once, in ascending order. *)
Theorem transform_categories (data : list RawRecord) :
  let p := transform data in
  (NoDup (sex_categories p) /\ ascending (sex_categories p) /\
   forall s, In s (sex_categories p)
             <-> exists r : ProcessedRecord, In r (rows p) /\ sex r = s) /\
  (NoDup (smoker_categories p) /\ ascending (smoker_categories p) /\
   forall s, In s (smoker_categories p)
             <-> exists r : ProcessedRecord, In r (rows p) /\ smoker r = s) /\
  (NoDup (region_categories p) /\ ascending (region_categories p) /\
   forall s, In s (region_categories p)
             <-> exists r : ProcessedRecord, In r (rows p) /\ region r = s).
Proof.
  intro p. subst p. simpl.
  repeat split;
    first [apply categories_of_NoDup | apply categories_of_ascending
          | apply (categories_of_column sex) | apply (categories_of_column smoker)
          | apply (categories_of_column region)].
Qed.

Lemma transform_categories_witness :
  In "female"%string (sex_categories (transform scenario)).
Proof.
  apply (proj2 (proj2 (proj1 (transform_categories scenario)))).
  exists (derive (mkClean 50 "female" 31 2 "yes" "northeast" 20000)).
  split; [right; left; reflexivity | reflexivity].
Defined.

(** X3.  [is_smoker] is 1 on the rows whose [smoker] cell is exactly
    "yes" and 0 on all others, so its column sum is the smoker count of
    [analyze_smoker_impact]. *)
Theorem is_smoker_counts_smokers (data : list RawRecord) :
  (forall r : ProcessedRecord, In r (rows (transform data)) ->
     (smoker r = "yes"%string -> is_smoker r = 1%Z) /\
     (smoker r <> "yes"%string -> is_smoker r = 0%Z)) /\
  Zsum (map is_smoker (rows (transform data)))
    = smoker_count (analyze_smoker_impact (transform data)).
Proof.
  split.
  - intros r Hr. apply transform_row_derived in Hr. rewrite Hr. simpl.
    destruct (String.eqb_spec (smoker r) "yes"); split; intro; congruence.
  - unfold analyze_smoker_impact, charges_where_smoker. simpl.
    rewrite charges_of_length.
    induction (dropna data) as [|c cs IH]; simpl; [reflexivity|].
    destruct (String.eqb (smoker c) "yes"); simpl List.length; rewrite IH; lia.
Qed.

Lemma is_smoker_counts_smokers_witness :
  is_smoker (derive (mkClean 50 "female" 31 2 "yes" "northeast" 20000)) = 1%Z.
Proof.
  apply (proj1 (is_smoker_counts_smokers scenario)
               (derive (mkClean 50 "female" 31 2 "yes" "northeast" 20000))).
  - right; left; reflexivity.
  - reflexivity.
Defined.

(** X4.  A row with [children = -1] does not make [transform] fail: the
    division by zero gives +inf, -inf or NaN as [charges] is positive,
    negative or zero. *)
Theorem charges_per_person_zero_divisor (data : list RawRecord) (r : ProcessedRecord) :
  In r (rows (transform data)) ->
  children r = (-1)%Z ->
  (0 < charges r -> charges_per_person r = PosInf) /\
  (charges r < 0 -> charges_per_person r = NegInf) /\
  (charges r == 0 -> charges_per_person r = NaN).
Proof.
  intros Hr Hc. apply transform_row_derived in Hr. rewrite Hr. simpl.
  rewrite Hc. simpl. repeat split; intro H.
  - destruct (Qeq_bool (charges r) 0) eqn:E.
    + apply Qeq_bool_iff in E. lra.
    + apply Qltb_lt in H. rewrite H. reflexivity.
  - destruct (Qeq_bool (charges r) 0) eqn:E.
    + apply Qeq_bool_iff in E. lra.
    + assert (E' : Qltb 0 (charges r) = false) by (apply Qltb_ge; lra).
      rewrite E'. reflexivity.
  - apply Qeq_bool_iff in H. rewrite H. reflexivity.
Qed.

Lemma charges_per_person_zero_divisor_witness :
  charges_per_person (derive (mkClean 40 "male" 30 (-1) "no" "southeast" 1500))
    = PosInf.
Proof.
  apply (charges_per_person_zero_divisor
           [sample_row 40 "male" 30 (-1) "no" "southeast" 1500]
           (derive (mkClean 40 "male" 30 (-1) "no" "southeast" 1500))).
  - left; reflexivity.
  - reflexivity.
  - reflexivity.
Defined.

Lemma derive_quotient (c : CleanRecord) :
  (0 <= children c < int64_max)%Z ->
  charges_per_person (derive c) = Finite (charges c / inject_Z (children c + 1)).
Proof.
  intro Hc. cbn [charges_per_person derive fdiv].
  rewrite int64_add_in_range by lia.
  destruct (Qeq_bool (inject_Z (children c + 1)) 0) eqn:E; [|reflexivity].
  apply Qeq_bool_iff in E. exfalso.
  change 0 with (inject_Z 0) in E. rewrite inject_Z_injective in E. lia.
Qed.

(** X5.  With non-negative [charges] and a number of [children] from 0
    up to, not including, the largest int64, [charges_per_person] is a
    finite number between 0 and [charges]. *)
Theorem charges_per_person_bounds (data : list RawRecord) (r : ProcessedRecord) :
  In r (rows (transform data)) ->
  (0 <= children r < int64_max)%Z -> 0 <= charges r ->
  exists q : Q, charges_per_person r = Finite q /\ 0 <= q <= charges r.
Proof.
  intros Hr Hc Hch.
  assert (Hd : 1 <= inject_Z (children r + 1)).
  { change 1 with (inject_Z 1). rewrite <- Zle_Qle. lia. }
  assert (Hq : charges_per_person r = Finite (charges r / inject_Z (children r + 1))).
  { apply transform_row_derived in Hr. rewrite Hr at 1.
    apply derive_quotient. exact Hc. }
  assert (Hmul : charges r / inject_Z (children r + 1) * inject_Z (children r + 1)
                 == charges r) by (field; lra).
  exists (charges r / inject_Z (children r + 1)). split; [exact Hq|].
  set (q := charges r / inject_Z (children r + 1)) in *.
  set (n := inject_Z (children r + 1)) in *.
  assert (Hq0 : 0 <= q).
  { unfold q. apply Qle_shift_div_l; lra. }
  split; [exact Hq0|]. rewrite <- Hmul. nra.
Qed.

Lemma charges_per_person_bounds_witness :
  exists q : Q,
    charges_per_person (derive (mkClean 50 "female" 31 2 "yes" "northeast" 20000))
      = Finite q /\ 0 <= q <= 20000.
Proof.
  apply (charges_per_person_bounds scenario
           (derive (mkClean 50 "female" 31 2 "yes" "northeast" 20000))).
  - right; left; reflexivity.
  - unfold int64_max. simpl. lia.
  - discriminate.
Defined.



(** ** analyze_charges_by_factor and its wrappers *)

Lemma find_column_None (factor : string) :
  find_column factor = None <-> ~ In factor (map column_name columns).
Proof.
  unfold find_column. split.
  - intros Hnone Hin. rewrite in_map_iff in Hin. destruct Hin as (c & <- & Hc).
    pose proof (find_none _ _ Hnone c Hc) as H. simpl in H.
    rewrite String.eqb_refl in H. discriminate.
  - intro Hnot. destruct (find _ columns) as [c|] eqn:E; [|reflexivity].
    exfalso. apply Hnot. apply find_some in E. destruct E as [Hc E].
    apply String.eqb_eq in E. rewrite <- E. apply in_map. exact Hc.
Qed.

(** X7.  [analyze_charges_by_factor] raises ValueError, naming the
    factor, exactly when the factor is not one of the eleven column names
    of the processed frame; for a column name it returns a table. *)
Theorem analyze_charges_by_factor_unknown (data : ProcessedFrame) (factor : string) :
  (~ In factor (map column_name columns) ->
   analyze_charges_by_factor data factor
     = Raise (ValueError ("Factor '" ++ factor ++ "' not found in data"))) /\
  (In factor (map column_name columns) ->
   exists table, analyze_charges_by_factor data factor = Ok table).
Proof.
  unfold analyze_charges_by_factor. split; intro H.
  - apply find_column_None in H. rewrite H. reflexivity.
  - destruct (find_column factor) as [c|] eqn:E.
    + eexists. reflexivity.
    + apply find_column_None in E. contradiction.
Qed.

Lemma analyze_charges_by_factor_unknown_witness :
  analyze_charges_by_factor (transform scenario) "Region"
    = Raise (ValueError "Factor 'Region' not found in data").
Proof.
  apply (proj1 (analyze_charges_by_factor_unknown (transform scenario) "Region")).
  simpl. intuition discriminate.
Defined.



Lemma aggregate_empty :
  aggregate [] = mkStats 0 NaN NaN NaN NaN NaN.
Proof. reflexivity. Qed.





(** The decimal 0.575 is no float64: a cell read from it holds the
    nearest float64, 2589569785738035 / 2^52, just below the tie, and is
    rounded down to 0.57. *)
Example Qround_below_tie :
  Qround 100 (2589569785738035 # 4503599627370496) = 57 # 100.
Proof. reflexivity. Qed.



(** X9.  [analyze_smoker_impact] counts only the rows whose [smoker]
    cell is "yes" or "no": the two counts and the number of rows with any
    other value add up to the number of rows, so the counts cover the
    frame exactly when no row has another value. *)
Theorem smoker_counts_partition (data : ProcessedFrame) :
  let impact := analyze_smoker_impact data in
  (smoker_count impact + non_smoker_count impact
   + Z.of_nat (List.length (filter other_smoker (rows data)))
   = Z.of_nat (List.length (rows data)))%Z /\
  ((smoker_count impact + non_smoker_count impact
    = Z.of_nat (List.length (rows data)))%Z
   <-> forall r : ProcessedRecord, In r (rows data) ->
         smoker r = "yes"%string \/ smoker r = "no"%string).
Proof.
  intro impact. subst impact. unfold analyze_smoker_impact, charges_where_smoker.
  cbn [smoker_count non_smoker_count]. rewrite !charges_of_length.
  assert (Hsum : forall rs : list ProcessedRecord,
    (Z.of_nat (List.length (filter (fun r : ProcessedRecord => String.eqb (smoker r) "yes") rs))
     + Z.of_nat (List.length (filter (fun r : ProcessedRecord => String.eqb (smoker r) "no") rs))
     + Z.of_nat (List.length (filter other_smoker rs))
     = Z.of_nat (List.length rs))%Z).
  { induction rs as [|r rs IH]; [reflexivity|]. cbn [filter].
    unfold other_smoker at 1.
    destruct (String.eqb_spec (smoker r) "yes") as [E|E].
    - rewrite E. cbn [String.eqb Ascii.eqb Bool.eqb negb andb List.length]. lia.
    - destruct (String.eqb (smoker r) "no"); cbn [negb andb List.length]; lia. }
  split; [apply Hsum|].
  pose proof (Hsum (rows data)) as H. split.
  - intros Heq r Hr.
    assert (Hnone : List.length (filter other_smoker (rows data)) = O) by lia.
    destruct (other_smoker r) eqn:E.
    + exfalso. assert (Hin : In r (filter other_smoker (rows data)))
        by (apply filter_In; auto).
      destruct (filter other_smoker (rows data)); [destruct Hin | discriminate].
    + unfold other_smoker in E.
      destruct (String.eqb_spec (smoker r) "yes"); [left; assumption|].
      destruct (String.eqb_spec (smoker r) "no"); [right; assumption|].
      discriminate.
  - intro Hall. rewrite (filter_none other_smoker) in H;
      [cbn [List.length] in H; lia|].
    intros r Hr. unfold other_smoker.
    destruct (Hall r Hr) as [-> | ->]; reflexivity.
Qed.

Lemma smoker_counts_partition_witness :
  smoker (derive (mkClean 50 "female" 31 2 "yes" "northeast" 20000)) = "yes"%string \/
  smoker (derive (mkClean 50 "female" 31 2 "yes" "northeast" 20000)) = "no"%string.
Proof.
  apply (proj1 (proj2 (smoker_counts_partition (transform scenario))) eq_refl).
  right. left. reflexivity.
Defined.

Lemma in_group_smoker (value : string) (r : ProcessedRecord) :
  in_group Smoker (KStr value) r = String.eqb (smoker r) value.
Proof.
  unfold in_group, key_eqb. cbn [group_key].
  destruct (key_eq_dec (KStr (smoker r)) (KStr value)) as [E|E];
    destruct (String.eqb_spec (smoker r) value) as [E'|E']; try reflexivity.
  - injection E as E. contradiction.
  - rewrite E' in E. contradiction.
Qed.

(** X10.  The table by smoker status and the smoker impact agree: the
    row of "yes" (resp. "no") has the smoker (resp. non-smoker) count and
    the smoker (resp. non-smoker) average rounded to 2 decimals. *)
Theorem smoker_table_matches_impact
  (data : ProcessedFrame) (table : list (key * GroupStatistics))
  (stats : GroupStatistics) :
  analyze_charges_by_factor data "smoker" = Ok table ->
  let impact := analyze_smoker_impact data in
  (In (KStr "yes", stats) table ->
   stat_count stats = smoker_count impact /\
   stat_mean stats = fround 100 (smoker_avg impact)) /\
  (In (KStr "no", stats) table ->
   stat_count stats = non_smoker_count impact /\
   stat_mean stats = fround 100 (non_smoker_avg impact)).
Proof.
  intros Ht impact. injection Ht as <-. subst impact.
  unfold groupby_charges, analyze_smoker_impact, charges_where_smoker.
  split; rewrite in_map_iff; intros (k & E & _); injection E as -> <-;
    rewrite (filter_ext _ _ (in_group_smoker _)); split; reflexivity.
Qed.

Lemma smoker_table_matches_impact_witness :
  exists stats : GroupStatistics,
    In (KStr "yes", stats) (groupby_charges (transform scenario) Smoker) /\
    stat_count stats = smoker_count (analyze_smoker_impact (transform scenario)).
Proof.
  assert (Hin : In (KStr "yes", aggregate [20000])
                   (groupby_charges (transform scenario) Smoker))
    by (right; left; reflexivity).
  exists (aggregate [20000]). split; [exact Hin|].
  apply (proj1 (smoker_table_matches_impact (transform scenario)
                  (groupby_charges (transform scenario) Smoker)
                  (aggregate [20000]) eq_refl) Hin).
Defined.

Lemma group_index_observed (data : list RawRecord) (c : Column) (k : key) :
  c <> BmiCategory -> c <> AgeGroup ->
  In k (group_index (transform data) c) ->
  exists r : ProcessedRecord,
    In r (rows (transform data)) /\ group_key c r = Some k.
Proof.
  intros Hb Ha. unfold group_index.
  destruct (categories (transform data) c) as [cats|] eqn:Hc.
  - rewrite in_map_iff. intros (s & <- & Hs).
    destruct c; simpl in Hc; try discriminate; try contradiction;
      injection Hc as <-;
      apply categories_of_column in Hs; destruct Hs as (r & Hr & <-);
      exists r; (split; [exact Hr | reflexivity]).
  - intro Hin. apply keys_of_In.
    apply (nodup_In key_eq_dec).
    apply (Permutation_in _ (Permutation_sym (KeySort.Permuted_sort _))).
    exact Hin.
Qed.

Lemma observed_group_count (data : list RawRecord) (c : Column)
  (k : key) (stats : GroupStatistics) :
  c <> BmiCategory -> c <> AgeGroup ->
  In (k, stats) (groupby_charges (transform data) c) ->
  (1 <= stat_count stats)%Z.
Proof.
  intros Hb Ha Hin. unfold groupby_charges in Hin.
  rewrite in_map_iff in Hin. destruct Hin as (k' & E & Hk). injection E as -> <-.
  destruct (group_index_observed data c k Hb Ha Hk) as (r & Hr & Hkey).
  cbn [stat_count aggregate]. rewrite charges_of_length.
  change (map derive (dropna data)) with (rows (transform data)).
  assert (Hin : In r (filter (in_group c k) (rows (transform data)))).
  { apply filter_In. split; [exact Hr | apply in_group_iff; exact Hkey]. }
  destruct (filter (in_group c k) (rows (transform data))); [destruct Hin|].
  simpl List.length. lia.
Qed.

Lemma never_null_total (data : list RawRecord) (c : Column) :
  never_null c = true ->
  total_count (groupby_charges (transform data) c)
    = Z.of_nat (List.length (rows (transform data))).
Proof.
  intro Hn. rewrite groupby_total_count, sizes_sum_keys.
  - rewrite keys_of_length. do 2 f_equal.
    rewrite <- (never_null_counted c (rows (transform data)) Hn) at 2.
    apply filter_ext_in. intros r Hr. apply derived_key_counted.
    apply (transform_row_derived data). exact Hr.
  - apply group_index_NoDup, transform_consistent.
  - intro k. apply group_index_cover, transform_consistent.
Qed.

(** X11.  On a processed frame the four impact methods never raise.
    [analyze_bmi_impact] and [analyze_age_impact] return one row per
    label, in label order; [analyze_regional_differences] and
    [analyze_children_impact] return one row per region, resp. number of
    children, that occurs, each with at least one record, and their
    counts add up to the number of rows. *)
Theorem impact_methods (data : list RawRecord) :
  (exists table, analyze_bmi_impact (transform data) = Ok table /\
                 map fst table = map KStr bmi_labels) /\
  (exists table, analyze_age_impact (transform data) = Ok table /\
                 map fst table = map KStr age_labels) /\
  (exists table, analyze_regional_differences (transform data) = Ok table /\
                 NoDup (map fst table) /\
                 total_count table = Z.of_nat (List.length (rows (transform data))) /\
                 forall k stats, In (k, stats) table ->
                   (1 <= stat_count stats)%Z /\
                   exists r : ProcessedRecord,
                     In r (rows (transform data)) /\ k = KStr (region r)) /\
  (exists table, analyze_children_impact (transform data) = Ok table /\
                 NoDup (map fst table) /\
                 total_count table = Z.of_nat (List.length (rows (transform data))) /\
                 forall k stats, In (k, stats) table ->
                   (1 <= stat_count stats)%Z /\
                   exists r : ProcessedRecord,
                     In r (rows (transform data)) /\ k = KInt (children r)).
Proof.
  assert (Hidx : forall c, map fst (groupby_charges (transform data) c)
                           = group_index (transform data) c).
  { intro c. unfold groupby_charges. rewrite map_map. apply map_id. }
  split; [|split; [|split]].
  - eexists. split; [reflexivity|]. apply Hidx.
  - eexists. split; [reflexivity|]. apply Hidx.
  - exists (groupby_charges (transform data) Region).
    split; [reflexivity|]. split; [|split].
    + rewrite Hidx. apply group_index_NoDup, transform_consistent.
    + apply never_null_total. reflexivity.
    + intros k stats Hin. split.
      * apply (observed_group_count data Region k stats); [discriminate.. | exact Hin].
      * apply (in_map fst) in Hin. rewrite Hidx in Hin. simpl in Hin.
        destruct (group_index_observed data Region k) as (r & Hr & Hk);
          [discriminate.. | exact Hin |].
        exists r. split; [exact Hr|]. simpl in Hk. congruence.
  - exists (groupby_charges (transform data) Children).
    split; [reflexivity|]. split; [|split].
    + rewrite Hidx. apply group_index_NoDup, transform_consistent.
    + apply never_null_total. reflexivity.
    + intros k stats Hin. split.
      * apply (observed_group_count data Children k stats); [discriminate.. | exact Hin].
      * apply (in_map fst) in Hin. rewrite Hidx in Hin. simpl in Hin.
        destruct (group_index_observed data Children k) as (r & Hr & Hk);
          [discriminate.. | exact Hin |].
        exists r. split; [exact Hr|]. simpl in Hk. congruence.
Qed.

Lemma impact_methods_witness :
  exists stats : GroupStatistics,
    In (KInt 2, stats) (groupby_charges (transform scenario) Children) /\
    (1 <= stat_count stats)%Z.
Proof.
  assert (Hin : In (KInt 2, aggregate [20000])
                   (groupby_charges (transform scenario) Children))
    by (right; left; reflexivity).
  exists (aggregate [20000]). split; [exact Hin|].
  destruct (proj2 (proj2 (proj2 (impact_methods scenario))))
    as (table & Ht & _ & _ & Hrows).
  injection Ht as <-. apply (Hrows _ _ Hin).
Defined.

(** ** identify_high_risk_profiles *)

Section PercentileBounds.

Variable values : list Q.
Hypothesis nonempty : values <> [].

Let s := QSort.sort values.
Let n := Z.of_nat (List.length s).

Lemma sample_size_pos : (1 <= n)%Z.
Proof. unfold n, s. pose proof (sort_length_pos values nonempty). lia. Qed.

(** The position [(n - 1) q] and its floor stay inside the sample. *)
Lemma position_bounds (q : Q) :
  0 <= q <= 1 ->
  let pos := inject_Z (n - 1) * q in
  (0 <= Qfloor pos <= n - 1)%Z /\
  0 <= pos - inject_Z (Qfloor pos) /\ pos - inject_Z (Qfloor pos) < 1.
Proof.
  intros [H0 H1] pos. pose proof sample_size_pos as Hn.
  assert (Hn' : 0 <= inject_Z (n - 1)).
  { change 0 with (inject_Z 0). rewrite <- Zle_Qle. lia. }
  assert (Hp0 : inject_Z 0 <= pos)
    by (unfold pos; apply Qmult_le_0_compat; assumption).
  assert (Hp1 : pos <= inject_Z (n - 1)) by (unfold pos; nra).
  apply Qfloor_resp_le in Hp0. apply Qfloor_resp_le in Hp1.
  rewrite Qfloor_Z in Hp0, Hp1.
  split; [lia|].
  pose proof (Qfloor_le pos). pose proof (Qlt_floor pos) as Hlt.
  rewrite inject_Z_plus in Hlt. change (inject_Z 1) with 1 in Hlt. split; lra.
Qed.

(** The interpolated value lies between the two sample values it is
    interpolated from. *)
Lemma percentile_linear_between (q : Q) :
  0 <= q <= 1 ->
  let lo := Qfloor (inject_Z (n - 1) * q) in
  let hi := Z.min (lo + 1) (n - 1) in
  nth (Z.to_nat lo) s 0 <= percentile_linear values q /\
  percentile_linear values q <= nth (Z.to_nat hi) s 0.
Proof.
  intros Hq lo hi. destruct (position_bounds q Hq) as (Hlo & Hg0 & Hg1).
  fold lo in Hlo, Hg0, Hg1.
  unfold percentile_linear. fold s n lo hi.
  set (a := nth (Z.to_nat lo) s 0). set (b := nth (Z.to_nat hi) s 0).
  set (g := inject_Z (n - 1) * q - inject_Z lo) in *.
  assert (Hab : a <= b).
  { apply sorted_nth_le; [apply sort_sorted|]. unfold hi, n in *. lia. }
  split; nra.
Qed.

Lemma percentile_linear_le_max (q x : Q) :
  0 <= q <= 1 -> (forall y, In y values -> y <= x) ->
  percentile_linear values q <= x.
Proof.
  intros Hq Hmax. destruct (percentile_linear_between q Hq) as [_ H].
  eapply Qle_trans; [exact H|]. apply Hmax. apply sort_In. apply nth_In.
  destruct (position_bounds q Hq) as (Hlo & _). fold s. unfold n in *. lia.
Qed.

(** The quantile does not decrease with [q]. *)
Lemma percentile_linear_mono (q q' : Q) :
  0 <= q -> q <= q' -> q' <= 1 ->
  percentile_linear values q <= percentile_linear values q'.
Proof.
  intros H0 Hqq H1.
  assert (Hq : 0 <= q <= 1) by (split; lra).
  assert (Hq' : 0 <= q' <= 1) by (split; lra).
  pose proof sample_size_pos as Hn.
  assert (Hn' : 0 <= inject_Z (n - 1)).
  { change 0 with (inject_Z 0). rewrite <- Zle_Qle. lia. }
  assert (Hpos : inject_Z (n - 1) * q <= inject_Z (n - 1) * q') by nra.
  pose proof (Qfloor_resp_le _ _ Hpos) as Hfl.
  destruct (position_bounds q Hq) as (Hlo & Hg0 & Hg1).
  destruct (position_bounds q' Hq') as (Hlo' & Hg0' & Hg1').
  destruct (Z.eq_dec (Qfloor (inject_Z (n - 1) * q)) (Qfloor (inject_Z (n - 1) * q')))
    as [E|E].
  - unfold percentile_linear. fold s n. rewrite <- E.
    set (lo := Qfloor (inject_Z (n - 1) * q)) in *.
    set (a := nth (Z.to_nat lo) s 0).
    set (b := nth (Z.to_nat (Z.min (lo + 1) (n - 1))) s 0).
    assert (Hab : a <= b).
    { apply sorted_nth_le; [apply sort_sorted|]. unfold n in *. lia. }
    nra.
  - destruct (percentile_linear_between q Hq) as [_ Hup].
    destruct (percentile_linear_between q' Hq') as [Hdown _].
    eapply Qle_trans; [exact Hup|]. eapply Qle_trans; [|exact Hdown].
    apply sorted_nth_le; [apply sort_sorted|]. fold s. unfold n in *. lia.
Qed.

End PercentileBounds.

(** X12.  On a frame without rows, [identify_high_risk_profiles] with a
    percentile in [0, 100] does not fail: the quantile of no charges is
    NaN, no row passes, and the frame comes back with its categories. *)
Theorem high_risk_profiles_empty (data : ProcessedFrame) (p : Q) :
  rows data = [] -> 0 <= p <= 100 ->
  identify_high_risk_profiles data p = Ok data.
Proof.
  intros Hrows Hp. rewrite (identify_percent data p Hp).
  apply percent_in_unit in Hp. destruct Hp as [H0 H1]. unfold quantile.
  apply Qle_bool_iff in H0. apply Qle_bool_iff in H1. rewrite H0, H1, Hrows.
  simpl. unfold select_rows. rewrite Hrows. destruct data. simpl in *.
  congruence.
Qed.

Lemma high_risk_profiles_empty_witness :
  identify_high_risk_profiles empty_frame 75 = Ok empty_frame.
Proof.
  apply (high_risk_profiles_empty empty_frame 75); [reflexivity|].
  split; discriminate.
Defined.

(** X13.  On a frame with rows and for a percentile in [0, 100] the
    selection is never empty: every row whose charges are the largest of
    the frame is selected.  The selected rows are rows of the frame and
    the categories of the frame are kept. *)
Theorem high_risk_profiles_nonempty (data : ProcessedFrame) (p : Q) :
  rows data <> [] -> 0 <= p <= 100 ->
  exists high_risk : ProcessedFrame,
    identify_high_risk_profiles data p = Ok high_risk /\
    rows high_risk <> [] /\
    (forall r, In r (rows high_risk) -> In r (rows data)) /\
    (forall r : ProcessedRecord, In r (rows data) ->
       (forall r' : ProcessedRecord, In r' (rows data) -> charges r' <= charges r) ->
       In r (rows high_risk)) /\
    sex_categories high_risk = sex_categories data /\
    smoker_categories high_risk = smoker_categories data /\
    region_categories high_risk = region_categories data.
Proof.
  intros Hne Hp. pose proof (charges_of_nonempty _ Hne) as Hc.
  pose proof (percent_in_unit p Hp) as Hq.
  rewrite (identify_percent data p Hp).
  rewrite (quantile_in_range _ _ Hc Hq).
  set (t := percentile_linear (charges_of (rows data)) (underflow (p / 100))).
  set (hr := select_rows (fun r : ProcessedRecord => fge (Finite (charges r)) (Finite t))
                         data).
  exists hr. split; [reflexivity|].
  assert (Hrows : forall r : ProcessedRecord,
            In r (rows hr) <-> In r (rows data) /\ t <= charges r).
  { intro r. unfold hr, select_rows. cbn [rows]. rewrite filter_In.
    cbn [fge]. rewrite Qle_bool_iff. tauto. }
  assert (Htop : forall r : ProcessedRecord, In r (rows data) ->
            (forall r' : ProcessedRecord, In r' (rows data) -> charges r' <= charges r) ->
            In r (rows hr)).
  { intros r Hr Hmax. apply Hrows. split; [exact Hr|].
    apply percentile_linear_le_max; [exact Hc | exact Hq |].
    intros y Hy. apply charges_of_In in Hy. destruct Hy as (r' & Hr' & <-).
    apply Hmax. exact Hr'. }
  split; [|split; [|split; [exact Htop | repeat split]]].
  - pose proof (sort_last_In _ Hc) as Hm. apply charges_of_In in Hm.
    destruct Hm as (r & Hr & Em).
    assert (Hin : In r (rows hr)).
    { apply (Htop r Hr). intros r' Hr'. rewrite Em. apply sort_last_ge.
      apply charges_of_In. exists r'. auto. }
    intro Hnil. rewrite Hnil in Hin. destruct Hin.
  - intros r Hr. apply Hrows in Hr. tauto.
Qed.

Lemma high_risk_profiles_nonempty_witness :
  exists high_risk : ProcessedFrame,
    identify_high_risk_profiles (transform scenario) 75 = Ok high_risk /\
    rows high_risk <> [].
Proof.
  destruct (high_risk_profiles_nonempty (transform scenario) 75)
    as (hr & Hrun & Hne & _).
  - discriminate.
  - split; discriminate.
  - exists hr. split; assumption.
Defined.

Lemma high_risk_rows_incl (data : ProcessedFrame) (p : Q) (high_risk : ProcessedFrame) :
  identify_high_risk_profiles data p = Ok high_risk ->
  forall r, In r (rows high_risk) -> In r (rows data).
Proof.
  unfold identify_high_risk_profiles.
  destruct (percent p) as [q|e]; [|discriminate].
  destruct (quantile _ _) as [t|e]; [|discriminate].
  intro E. injection E as <-. intros r Hr. simpl in Hr.
  apply filter_In in Hr. tauto.
Qed.

(** X14.  Raising the percentile never adds a profile: for
    [0 <= p <= p' <= 100] every row selected at [p'] is selected at
    [p]. *)
Theorem high_risk_profiles_monotone
  (data : ProcessedFrame) (p p' : Q) (low high : ProcessedFrame) :
  0 <= p -> p <= p' -> p' <= 100 ->
  identify_high_risk_profiles data p = Ok low ->
  identify_high_risk_profiles data p' = Ok high ->
  forall r, In r (rows high) -> In r (rows low).
Proof.
  intros H0 Hpp H1 Hlow Hhigh r Hr.
  assert (Hp : 0 <= p <= 100) by (split; lra).
  assert (Hp' : 0 <= p' <= 100) by (split; lra).
  destruct (rows data) as [|r0 rs] eqn:Hrows.
  - apply (high_risk_rows_incl data p' high Hhigh) in Hr.
    rewrite Hrows in Hr. destruct Hr.
  - assert (Hne : rows data <> []) by (rewrite Hrows; discriminate).
    pose proof (charges_of_nonempty _ Hne) as Hc.
    rewrite (identify_percent data p Hp) in Hlow.
    rewrite (identify_percent data p' Hp') in Hhigh.
    rewrite (quantile_in_range _ _ Hc (percent_in_unit p Hp)) in Hlow.
    rewrite (quantile_in_range _ _ Hc (percent_in_unit p' Hp')) in Hhigh.
    injection Hlow as <-. injection Hhigh as <-.
    simpl in *. apply filter_In in Hr. destruct Hr as [Hin Hge].
    apply filter_In. split; [exact Hin|].
    apply Qle_bool_iff in Hge. apply Qle_bool_iff.
    eapply Qle_trans; [|exact Hge].
    pose proof (percent_in_unit p Hp) as [Hq0 _].
    pose proof (percent_in_unit p' Hp') as [_ Hq1].
    apply percentile_linear_mono; [exact Hc | exact Hq0 | | exact Hq1].
    apply underflow_mono.
    pose proof (percent_quotient p). pose proof (percent_quotient p'). lra.
Qed.

Lemma high_risk_profiles_monotone_witness :
  exists low high : ProcessedFrame,
    identify_high_risk_profiles (transform scenario) 25 = Ok low /\
    identify_high_risk_profiles (transform scenario) 75 = Ok high /\
    In (derive (mkClean 50 "female" 31 2 "yes" "northeast" 20000)) (rows low).
Proof.
  eexists. eexists. split; [reflexivity|]. split; [reflexivity|].
  eapply (high_risk_profiles_monotone (transform scenario) 25 75);
    [discriminate | discriminate | discriminate | reflexivity | reflexivity |].
  vm_compute. left. reflexivity.
Defined.

(** ** get_key_insights *)

Lemma fold_min_le (l : list Q) (a : Q) :
  fold_left Qmin l a <= a /\ forall y, In y l -> fold_left Qmin l a <= y.
Proof.
  revert a. induction l as [|x l IH]; intro a; simpl.
  - split; [apply Qle_refl | intros y []].
  - destruct (IH (Qmin a x)) as [H1 H2]. split.
    + eapply Qle_trans; [exact H1 | apply Q.le_min_l].
    + intros y [<- | Hy]; [|apply H2; exact Hy].
      eapply Qle_trans; [exact H1 | apply Q.le_min_r].
Qed.

Lemma fold_max_ge (l : list Q) (a : Q) :
  a <= fold_left Qmax l a /\ forall y, In y l -> y <= fold_left Qmax l a.
Proof.
  revert a. induction l as [|x l IH]; intro a; simpl.
  - split; [apply Qle_refl | intros y []].
  - destruct (IH (Qmax a x)) as [H1 H2]. split.
    + eapply Qle_trans; [apply Q.le_max_l | exact H1].
    + intros y [<- | Hy]; [|apply H2; exact Hy].
      eapply Qle_trans; [apply Q.le_max_r | exact H1].
Qed.

Lemma Qsum_lower (l : list Q) (m : Q) :
  (forall x, In x l -> m <= x) -> Qlen l * m <= Qsum l.
Proof.
  unfold Qlen. induction l as [|x l IH]; intro H.
  - cbn [List.length Qsum fold_right]. change (inject_Z (Z.of_nat 0)) with 0. lra.
  - cbn [Qsum fold_right List.length]. fold (Qsum l).
    rewrite Nat2Z.inj_succ. unfold Z.succ. rewrite inject_Z_plus.
    assert (m <= x) by (apply H; left; reflexivity).
    assert (inject_Z (Z.of_nat (List.length l)) * m <= Qsum l)
      by (apply IH; intros y Hy; apply H; right; exact Hy).
    change (inject_Z 1) with 1. lra.
Qed.

Lemma Qsum_upper (l : list Q) (m : Q) :
  (forall x, In x l -> x <= m) -> Qsum l <= Qlen l * m.
Proof.
  unfold Qlen. induction l as [|x l IH]; intro H.
  - cbn [List.length Qsum fold_right]. change (inject_Z (Z.of_nat 0)) with 0. lra.
  - cbn [Qsum fold_right List.length]. fold (Qsum l).
    rewrite Nat2Z.inj_succ. unfold Z.succ. rewrite inject_Z_plus.
    assert (x <= m) by (apply H; left; reflexivity).
    assert (Qsum l <= inject_Z (Z.of_nat (List.length l)) * m)
      by (apply IH; intros y Hy; apply H; right; exact Hy).
    change (inject_Z 1) with 1. lra.
Qed.

(** Minimum, mean and maximum of a non-empty series are ordered. *)
Lemma min_mean_max (l : list Q) :
  l <> [] ->
  exists lo avg hi : Q,
    Qmin_list l = Finite lo /\ mean l = Finite avg /\ Qmax_list l = Finite hi /\
    lo <= avg /\ avg <= hi.
Proof.
  intro Hne. destruct l as [|x l]; [contradiction|].
  exists (fold_left Qmin l x), (Qsum (x :: l) / Qlen (x :: l)), (fold_left Qmax l x).
  repeat split.
  - pose proof (Qlen_pos (x :: l) Hne) as Hn.
    apply Qle_shift_div_l; [exact Hn|]. rewrite Qmult_comm. apply Qsum_lower.
    destruct (fold_min_le l x) as [H1 H2].
    intros y [<- | Hy]; [exact H1 | apply H2; exact Hy].
  - pose proof (Qlen_pos (x :: l) Hne) as Hn.
    apply Qle_shift_div_r; [exact Hn|]. rewrite Qmult_comm. apply Qsum_upper.
    destruct (fold_max_ge l x) as [H1 H2].
    intros y [<- | Hy]; [exact H1 | apply H2; exact Hy].
Qed.

Lemma smoker_selection_nil (value : string) (data : ProcessedFrame) :
  (forall r : ProcessedRecord, In r (rows data) -> smoker r <> value) ->
  charges_where_smoker value data = [].
Proof.
  intro H. unfold charges_where_smoker. rewrite filter_none; [reflexivity|].
  intros r Hr. destruct (String.eqb_spec (smoker r) value); [|reflexivity].
  exfalso. exact (H r Hr e).
Qed.

Lemma smoker_selection_pos (value : string) (data : ProcessedFrame) (r : ProcessedRecord) :
  In r (rows data) -> smoker r = value ->
  (0 < Z.of_nat (List.length (charges_where_smoker value data)))%Z.
Proof.
  intros Hr Hs. unfold charges_where_smoker. rewrite charges_of_length.
  assert (Hin : In r (filter (fun r0 : ProcessedRecord => String.eqb (smoker r0) value)
                             (rows data))).
  { apply filter_In. split; [exact Hr | apply String.eqb_eq; exact Hs]. }
  destruct (filter _ (rows data)); [destruct Hin | simpl List.length; lia].
Qed.

(** X15.  [get_key_insights] raises ZeroDivisionError exactly when no row
    has a [smoker] cell equal to "yes" or "no" (the smoker percentage
    divides two Python ints), in particular on a frame without rows;
    otherwise it returns its dictionary. *)
Theorem get_key_insights_zero_division (data : ProcessedFrame) :
  ((forall r : ProcessedRecord, In r (rows data) ->
      smoker r <> "yes"%string /\ smoker r <> "no"%string) ->
   get_key_insights data = Raise (ZeroDivisionError "division by zero")) /\
  (rows data = [] ->
   get_key_insights data = Raise (ZeroDivisionError "division by zero")) /\
  ((exists r : ProcessedRecord,
      In r (rows data) /\ (smoker r = "yes"%string \/ smoker r = "no"%string)) ->
   exists insights, get_key_insights data = Ok insights).
Proof.
  assert (Hnone : (forall r : ProcessedRecord, In r (rows data) ->
                     smoker r <> "yes"%string /\ smoker r <> "no"%string) ->
                  get_key_insights data = Raise (ZeroDivisionError "division by zero")).
  { intro H. unfold get_key_insights, analyze_smoker_impact.
    cbn [smoker_count non_smoker_count].
    rewrite (smoker_selection_nil "yes"), (smoker_selection_nil "no");
      [reflexivity | intros r Hr; apply (H r Hr) | intros r Hr; apply (H r Hr)]. }
  split; [exact Hnone|]. split.
  - intro Hrows. apply Hnone. intros r Hr. rewrite Hrows in Hr. destruct Hr.
  - intros (r & Hr & Hs). unfold get_key_insights, analyze_smoker_impact.
    cbn [smoker_count non_smoker_count].
    assert (Hpos : (0 < Z.of_nat (List.length (charges_where_smoker "yes" data))
                        + Z.of_nat (List.length (charges_where_smoker "no" data)))%Z).
    { destruct Hs as [Hs | Hs].
      - pose proof (smoker_selection_pos _ data r Hr Hs). lia.
      - pose proof (smoker_selection_pos _ data r Hr Hs). lia. }
    destruct (Z.eqb_spec (Z.of_nat (List.length (charges_where_smoker "yes" data))
                          + Z.of_nat (List.length (charges_where_smoker "no" data))) 0)
      as [E|E]; [lia|].
    eexists. reflexivity.
Qed.

Lemma get_key_insights_zero_division_witness :
  get_key_insights empty_frame = Raise (ZeroDivisionError "division by zero") /\
  exists insights, get_key_insights (transform scenario) = Ok insights.
Proof.
  split.
  - apply (proj1 (proj2 (get_key_insights_zero_division empty_frame))). reflexivity.
  - apply (proj2 (proj2 (get_key_insights_zero_division (transform scenario)))).
    exists (derive (mkClean 50 "female" 31 2 "yes" "northeast" 20000)).
    split; [right; left; reflexivity | left; reflexivity].
Defined.

Lemma value_counts_sum (data : list RawRecord) (c : Column) (cats : list string) :
  never_null c = true ->
  categories (transform data) c = Some cats ->
  Zsum (map snd (value_counts c (transform data)))
    = Z.of_nat (List.length (rows (transform data))).
Proof.
  intros Hn Hc. unfold value_counts. rewrite Hc, map_map. cbn [snd].
  transitivity (sizes_sum c (rows (transform data)) (map KStr cats)).
  { unfold sizes_sum, Zsum. rewrite map_map. reflexivity. }
  rewrite sizes_sum_keys.
  - rewrite keys_of_length. do 2 f_equal.
    rewrite <- (never_null_counted c (rows (transform data)) Hn) at 2.
    apply filter_ext_in. intros r Hr. apply derived_key_counted.
    apply (transform_row_derived data). exact Hr.
  - apply NoDup_map_KStr. apply (transform_consistent data c cats Hc).
  - intros k Hk. apply keys_of_In in Hk. destruct Hk as (r & Hr & Hkey).
    exact (proj2 (transform_consistent data c cats Hc) r k Hr Hkey).
Qed.

(** X16.  When [get_key_insights] returns, its entries are consistent:
    [total_records] is the number of rows; [smoker_percentage] lies
    between 0 and 100; the minimum, average and maximum of the charges
    are numbers in that order and [charges_range] is the maximum minus
    the minimum; on a frame produced by [transform], the gender and the
    regional distribution each add up to [total_records]. *)
Theorem key_insights_consistent (data : list RawRecord) (insights : KeyInsights) :
  get_key_insights (transform data) = Ok insights ->
  total_records insights = Z.of_nat (List.length (rows (transform data))) /\
  (exists pct : Q, smoker_percentage insights = Finite pct /\ 0 <= pct <= 100) /\
  (exists lo avg hi : Q,
      min_charges insights = Finite lo /\ avg_charges insights = Finite avg /\
      max_charges insights = Finite hi /\ lo <= avg /\ avg <= hi /\
      charges_range insights = Finite (hi - lo)) /\
  Zsum (map snd (gender_distribution insights)) = total_records insights /\
  Zsum (map snd (regional_distribution insights)) = total_records insights.
Proof.
  unfold get_key_insights.
  set (impact := analyze_smoker_impact (transform data)).
  set (known := (smoker_count impact + non_smoker_count impact)%Z).
  destruct (Z.eqb_spec known 0) as [E|E]; [discriminate|].
  intro H. injection H as <-.
  cbn [total_records smoker_percentage min_charges avg_charges max_charges
       charges_range gender_distribution regional_distribution].
  assert (Hs : (0 <= smoker_count impact)%Z) by (unfold impact; simpl; lia).
  assert (Hn : (0 <= non_smoker_count impact)%Z) by (unfold impact; simpl; lia).
  assert (Hk : (0 < known)%Z) by (unfold known in *; lia).
  split; [reflexivity|]. split; [|split; [|split]].
  - eexists. split; [reflexivity|].
    assert (Hk' : 0 < inject_Z known)
      by (change 0 with (inject_Z 0); rewrite <- Zlt_Qlt; exact Hk).
    assert (Hs' : 0 <= inject_Z (smoker_count impact))
      by (change 0 with (inject_Z 0); rewrite <- Zle_Qle; exact Hs).
    assert (Hle : inject_Z (smoker_count impact) <= inject_Z known)
      by (rewrite <- Zle_Qle; unfold known; lia).
    set (q := inject_Z (smoker_count impact) / inject_Z known).
    assert (Hq0 : 0 <= q) by (unfold q; apply Qle_shift_div_l; lra).
    assert (Hq1 : q <= 1) by (unfold q; apply Qle_shift_div_r; lra).
    change (0 <= q * 100 <= 100). split; lra.
  - assert (Hne : charges_of (rows (transform data)) <> []).
    { apply charges_of_nonempty. intro Hnil.
      unfold known, impact, analyze_smoker_impact, charges_where_smoker in E.
      rewrite Hnil in E. apply E. reflexivity. }
    destruct (min_mean_max _ Hne) as (lo & avg & hi & Hlo & Havg & Hhi & H1 & H2).
    exists lo, avg, hi.
    change (map derive (dropna data)) with (rows (transform data)).
    rewrite Hlo, Havg, Hhi. repeat split; assumption.
  - apply (value_counts_sum data Sex _ eq_refl eq_refl).
  - apply (value_counts_sum data Region _ eq_refl eq_refl).
Qed.

Lemma key_insights_consistent_witness :
  exists insights : KeyInsights,
    get_key_insights (transform scenario) = Ok insights /\
    total_records insights = 3%Z /\
    Zsum (map snd (gender_distribution insights)) = total_records insights.
Proof.
  eexists. split; [reflexivity|].
  destruct (key_insights_consistent scenario _ eq_refl) as (Ht & _ & _ & Hg & _).
  split; [exact Ht | exact Hg].
Defined.

(** ** correlation_analysis *)

Section CauchySchwarz.

Variable A : Type.
Variables F G : A -> Q.

Lemma quadratic_sum (l : list A) (t : Q) :
  Qsum (map (fun p => (F p * t + G p) * (F p * t + G p)) l)
  == Qsum (map (fun p => F p * F p) l) * t * t
     + 2 * Qsum (map (fun p => F p * G p) l) * t
     + Qsum (map (fun p => G p * G p) l).
Proof.
  induction l as [|p l IH]; simpl; [ring|]. rewrite IH. ring.
Qed.

Lemma cauchy_schwarz (l : list A) :
  0 < Qsum (map (fun p => F p * F p) l) ->
  Qsum (map (fun p => F p * G p) l) * Qsum (map (fun p => F p * G p) l)
  <= Qsum (map (fun p => F p * F p) l) * Qsum (map (fun p => G p * G p) l).
Proof.
  set (a := Qsum (map (fun p => F p * F p) l)).
  set (b := Qsum (map (fun p => F p * G p) l)).
  set (c := Qsum (map (fun p => G p * G p) l)).
  intro Ha. set (t := - b / a).
  assert (Hq : 0 <= a * t * t + 2 * b * t + c).
  { unfold a, b, c. rewrite <- quadratic_sum. apply Qsum_nonneg.
    intros u Hu. rewrite in_map_iff in Hu. destruct Hu as (p & <- & _).
    apply square_nonneg. }
  assert (Et : a * t == - b) by (unfold t; field; lra).
  nra.
Qed.

End CauchySchwarz.

Lemma round_sqrt_bounds (t : Q) (m : Z) :
  (0 <= m)%Z -> 0 <= t -> t <= inject_Z (m * m) ->
  (0 <= round_sqrt t <= m)%Z.
Proof.
  intros Hm Ht0 Ht. unfold round_sqrt. cbv zeta.
  set (f := Z.sqrt (Qfloor t)).
  assert (Hf0 : (0 <= f)%Z) by apply Z.sqrt_nonneg.
  assert (Hfm : (f <= m)%Z).
  { unfold f. rewrite <- (Z.sqrt_square m Hm). apply Z.sqrt_le_mono.
    rewrite <- (Qfloor_Z (m * m)). apply Qfloor_resp_le. exact Ht. }
  destruct (Z.eq_dec f m) as [E|E].
  - assert (Hlt : t < inject_Z (2 * f + 1) / 2 * (inject_Z (2 * f + 1) / 2)).
    { rewrite E. rewrite inject_Z_plus, inject_Z_mult.
      rewrite inject_Z_mult in Ht.
      assert (0 <= inject_Z m) by (change 0 with (inject_Z 0); rewrite <- Zle_Qle; lia).
      change (inject_Z 2) with 2. change (inject_Z 1) with 1.
      set (x := inject_Z m) in *.
      assert (Eh : (2 * x + 1) / 2 * ((2 * x + 1) / 2) == x * x + x + (1 # 4)) by field.
      rewrite Eh. lra. }
    rewrite (proj1 (Qlt_alt _ _) Hlt). lia.
  - destruct (t ?= _); [destruct (Z.even f) | |]; lia.
Qed.

Lemma comoment_nonneg (f : Q * Q -> Q) (obs : list (Q * Q)) :
  0 <= comoment f f obs.
Proof.
  unfold comoment. apply Qsum_nonneg. intros u Hu.
  rewrite in_map_iff in Hu. destruct Hu as (p & <- & _). apply square_nonneg.
Qed.

Lemma round_correlation_range (r : correlation) :
  match r with
  | CorrNaN => True
  | CorrRatio covxy ssq => 0 < ssq /\ covxy * covxy <= ssq
  end ->
  round_correlation 1000 r = NaN \/
  exists q : Q, round_correlation 1000 r = Finite q /\ - (1) <= q <= 1.
Proof.
  destruct r as [|covxy ssq]; [left; reflexivity|]. intros [Hpos Hcs]. right.
  unfold round_correlation.
  set (t := covxy * covxy / ssq * inject_Z (1000 * 1000)).
  assert (Hr : 0 <= covxy * covxy / ssq /\ covxy * covxy / ssq <= 1).
  { split.
    - apply Qle_shift_div_l; [exact Hpos|]. pose proof (square_nonneg covxy). lra.
    - apply Qle_shift_div_r; [exact Hpos|]. lra. }
  assert (Ht : (0 <= round_sqrt t <= 1000)%Z).
  { apply round_sqrt_bounds; [lia | |]; unfold t;
      change (inject_Z (1000 * 1000)) with 1000000; lra. }
  eexists. split; [reflexivity|].
  rewrite Qred_correct.
  set (k := match covxy ?= 0 with Lt => (- round_sqrt t)%Z | _ => round_sqrt t end).
  assert (Hk : (-1000 <= k <= 1000)%Z) by (unfold k; destruct (covxy ?= 0); lia).
  unfold Qle. simpl. lia.
Qed.

Lemma corr_entry_range (data : ProcessedFrame) (a b : Column) :
  corr_entry data a b = NaN \/
  exists q : Q, corr_entry data a b = Finite q /\ - (1) <= q <= 1.
Proof.
  unfold corr_entry. apply round_correlation_range. unfold nancorr.
  destruct (finite_pairs _ _) as [|p obs]; [exact I|].
  set (l := p :: obs).
  destruct (Qeq_bool (comoment fst fst l * comoment snd snd l) 0) eqn:E; [exact I|].
  assert (Hprod : ~ comoment fst fst l * comoment snd snd l == 0).
  { intro H. apply Qeq_bool_iff in H. congruence. }
  pose proof (comoment_nonneg fst l) as Hx. pose proof (comoment_nonneg snd l) as Hy.
  assert (Hx' : 0 < comoment fst fst l).
  { destruct (Qlt_le_dec 0 (comoment fst fst l)) as [H|H]; [exact H|].
    exfalso. apply Hprod. assert (E0 : comoment fst fst l == 0) by lra.
    rewrite E0. ring. }
  split.
  - destruct (Qlt_le_dec 0 (comoment snd snd l)) as [H|H].
    + apply Qmult_lt_0_compat; assumption.
    + exfalso. apply Hprod. assert (E0 : comoment snd snd l == 0) by lra.
      rewrite E0. ring.
  - unfold comoment in *. cbv zeta in *.
    apply (cauchy_schwarz _ (fun p => fst p - meanq (map fst l))
                            (fun p => snd p - meanq (map snd l)) l).
    exact Hx'.
Qed.

Lemma table_entry_is_corr_entry (data : ProcessedFrame) (row col : string) (v : float64) :
  table_entry (correlation_analysis data) row col = Some v ->
  exists a b : Column,
    is_number data a = true /\ is_number data b = true /\
    row = column_name a /\ col = column_name b /\ v = corr_entry data a b.
Proof.
  unfold table_entry, correlation_analysis, lookup. cbv zeta.
  destruct (is_number_cases data) as [[En ->] | [En ->]];
  cbn [map find fst snd column_name];
  repeat match goal with
         | |- context [String.eqb ?x row] =>
             destruct (String.eqb_spec x row);
             cbn [option_map snd map find fst]
         end;
    try discriminate;
    repeat match goal with
           | |- context [String.eqb ?x col] =>
               destruct (String.eqb_spec x col);
               cbn [option_map snd map find fst]
           end;
    try discriminate;
    intro H; injection H as <-; subst;
    match goal with
    | |- exists a b, _ /\ _ /\ column_name ?x = _ /\ column_name ?y = _ /\ _ =>
        exists x, y; unfold is_number, dtype_of; rewrite ?En; repeat split
    | |- exists a b, _ /\ _ /\ ?r = _ /\ ?c = _ /\ corr_entry _ ?x ?y = _ =>
        exists x, y; unfold is_number, dtype_of; rewrite ?En; repeat split
    end.
Qed.

(** X17.  Every entry of the correlation matrix is NaN or a number
    between -1 and 1. *)
Theorem correlation_entries_in_range
  (data : ProcessedFrame) (row col : string) (v : float64) :
  table_entry (correlation_analysis data) row col = Some v ->
  v = NaN \/ exists q : Q, v = Finite q /\ - (1) <= q <= 1.
Proof.
  intro H. apply table_entry_is_corr_entry in H.
  destruct H as (a & b & _ & _ & _ & _ & ->). apply corr_entry_range.
Qed.

Lemma correlation_entries_in_range_witness :
  exists q : Q,
    table_entry (correlation_analysis (transform scenario)) "age" "charges"
      = Some (Finite q) /\ - (1) <= q <= 1.
Proof.
  assert (H : table_entry (correlation_analysis (transform scenario)) "age" "charges"
              = Some (Finite (483 # 500))) by reflexivity.
  destruct (correlation_entries_in_range _ _ _ _ H) as [E | (q & E & Hq)];
    [discriminate|].
  exists q. rewrite H, E. split; [reflexivity | exact Hq].
Defined.

Lemma finite_pairs_In (xs ys : list float64) (p : Q * Q) :
  In p (finite_pairs xs ys) -> In (Finite (fst p)) xs /\ In (Finite (snd p)) ys.
Proof.
  revert ys. induction xs as [|x xs IH]; intros [|y ys]; simpl; try tauto.
  destruct x as [| | |a]; destruct y as [| | |b]; simpl;
    try (intro H; destruct (IH ys H); tauto).
  intros [<- | H]; [simpl; tauto|]. destruct (IH ys H). tauto.
Qed.

Lemma comoment_ssqdm (f : Q * Q -> Q) (obs : list (Q * Q)) :
  comoment f f obs = ssqdm (map f obs).
Proof. unfold comoment, ssqdm. rewrite map_map. reflexivity. Qed.

Lemma nancorr_constant (xs ys : list float64) :
  ~ varies xs -> nancorr xs ys = CorrNaN.
Proof.
  intro Hconst. unfold nancorr.
  destruct (finite_pairs xs ys) as [|p obs] eqn:Eobs; [reflexivity|].
  set (l := p :: obs) in *.
  assert (Hz : comoment fst fst l == 0).
  { rewrite comoment_ssqdm. apply (ssqdm_constant _ (fst p)); [discriminate|].
    intros x Hx. destruct (Qeq_dec x (fst p)) as [E|E]; [exact E|].
    exfalso. apply Hconst. exists x, (fst p).
    rewrite in_map_iff in Hx. destruct Hx as (p' & <- & Hp').
    rewrite <- Eobs in Hp'. apply finite_pairs_In in Hp'.
    assert (Hp : In p (finite_pairs xs ys)) by (rewrite Eobs; left; reflexivity).
    apply finite_pairs_In in Hp. tauto. }
  assert (E : Qeq_bool (comoment fst fst l * comoment snd snd l) 0 = true).
  { apply Qeq_bool_iff. rewrite Hz. ring. }
  rewrite E. reflexivity.
Qed.

(** X18.  A numeric column that does not vary (all its finite cells are
    equal, as [is_smoker] in a dataset without smokers) has NaN in its
    whole row and its whole column of the correlation matrix. *)
Theorem correlation_constant_column (data : ProcessedFrame) (a b : Column) :
  is_number data a = true -> is_number data b = true ->
  ~ varies (column_values a data) ->
  table_entry (correlation_analysis data) (column_name a) (column_name b) = Some NaN /\
  table_entry (correlation_analysis data) (column_name b) (column_name a) = Some NaN.
Proof.
  intros Ha Hb Hconst.
  rewrite !correlation_table_entry by assumption.
  rewrite (corr_entry_sym data a b). unfold corr_entry.
  rewrite (nancorr_constant _ _ Hconst). split; reflexivity.
Qed.

Lemma correlation_constant_column_witness :
  table_entry (correlation_analysis (transform centenarian_rows))
              "is_smoker" "charges" = Some NaN.
Proof.
  apply (correlation_constant_column (transform centenarian_rows) IsSmoker Charges
           eq_refl eq_refl).
  intros (x & y & Hx & Hy & Hxy). simpl in Hx, Hy.
  destruct Hx as [Hx | [Hx | []]]; destruct Hy as [Hy | [Hy | []]];
    injection Hx as <-; injection Hy as <-; apply Hxy; reflexivity.
Defined.

(** ** transform on the store *)

(** X19.  Called without a frame on an instance that has extracted
    nothing, [transform] raises ValueError and leaves the store and both
    references of the instance as they were. *)
Theorem transform_without_data (st : Store.State) :
  Store.raw_data st = None ->
  Store.transform None st
    = Some (Raise (ValueError "No data available. Run extract() first."), st).
Proof.
  intro H. unfold Store.transform, Store.bind, Store.get_raw_data. cbv beta.
  rewrite H. reflexivity.
Qed.

Lemma transform_without_data_witness :
  Store.transform None processed_store
    = Some (Raise (ValueError "No data available. Run extract() first."),
            processed_store).
Proof. apply (transform_without_data processed_store). reflexivity. Defined.

Lemma transform_none_from (st : Store.State) (l : Store.loc) (d : list RawRecord) :
  Store.raw_data st = Some l ->
  nth_error (Store.heap st) l = Some (Store.RawFrame d) ->
  Store.transform None st = Store.transform (Some l) st.
Proof.
  intros Hraw _. unfold Store.transform, Store.bind, Store.get_raw_data. cbv beta.
  rewrite Hraw. reflexivity.
Qed.

Lemma update_length (h : list Store.DataFrame) (l : Store.loc) (f : Store.DataFrame) :
  List.length (Store.update l f h) = List.length h.
Proof.
  revert l. induction h as [|g h IH]; intros [|l]; simpl; try reflexivity.
  rewrite IH. reflexivity.
Qed.

(** One run of [transform] from the address of a raw frame. *)
Lemma transform_run (st : Store.State) (l : Store.loc) (d : list RawRecord) :
  nth_error (Store.heap st) l = Some (Store.RawFrame d) ->
  exists (l' : Store.loc) (st' : Store.State),
    Store.transform (Some l) st = Some (Ok l', st') /\
    (List.length (Store.heap st) <= l' < List.length (Store.heap st'))%nat /\
    nth_error (Store.heap st') l' = Some (Store.Processed (transform d)) /\
    Store.preserved st st' /\
    Store.processed_data st' = Some l' /\
    Store.raw_data st' = Store.raw_data st.
Proof.
  intro Hl. pose proof (transform_from st l d Hl) as Hrun. cbv zeta in Hrun.
  eexists. eexists. split; [exact Hrun|]. cbn [Store.heap Store.processed_data Store.raw_data].
  split; [|split; [|split; [apply transform_preserves | split; reflexivity]]].
  - rewrite update_length, !length_app. simpl. lia.
  - apply nth_error_update_same. rewrite !length_app. simpl. lia.
Qed.

(** X20.  [transform] keeps its result in [self.processed_data] (the
    object it returns) and does not touch [self.raw_data].  Run twice on
    the same raw frame it builds two distinct objects with the same
    processed frame; the first is intact after the second run, and
    [self.processed_data] refers to the second. *)
Theorem transform_twice (st : Store.State) (l : Store.loc) (d : list RawRecord) :
  nth_error (Store.heap st) l = Some (Store.RawFrame d) ->
  exists (l1 : Store.loc) (st1 : Store.State),
    Store.transform (Some l) st = Some (Ok l1, st1) /\
    Store.processed_data st1 = Some l1 /\
    Store.raw_data st1 = Store.raw_data st /\
    exists (l2 : Store.loc) (st2 : Store.State),
      Store.transform (Some l) st1 = Some (Ok l2, st2) /\
      l2 <> l1 /\
      nth_error (Store.heap st2) l1 = Some (Store.Processed (transform d)) /\
      nth_error (Store.heap st2) l2 = Some (Store.Processed (transform d)) /\
      Store.processed_data st2 = Some l2.
Proof.
  intro Hl.
  destruct (transform_run st l d Hl) as (l1 & st1 & H1 & B1 & F1 & P1 & D1 & R1).
  exists l1, st1. split; [exact H1|]. split; [exact D1|]. split; [exact R1|].
  destruct (transform_run st1 l d (P1 _ _ Hl)) as (l2 & st2 & H2 & B2 & F2 & P2 & D2 & _).
  exists l2, st2. split; [exact H2|]. split; [lia|].
  split; [apply P2; exact F1|]. split; [exact F2 | exact D2].
Qed.

Lemma transform_twice_witness :
  exists (l1 : Store.loc) (st1 : Store.State),
    Store.transform (Some 0%nat) raw_store = Some (Ok l1, st1) /\
    Store.processed_data st1 = Some l1.
Proof.
  destruct (transform_twice raw_store 0%nat scenario eq_refl)
    as (l1 & st1 & Hrun & Hp & _).
  exists l1, st1. split; assumption.
Defined.

(** ** extract, load, run_pipeline *)

Lemma world_eta (os : Pipeline.OS) (w : Pipeline.World os) :
  Pipeline.mkWorld (Pipeline.data_path w) (Pipeline.etl w) (Pipeline.files w) = w.
Proof. destruct w. reflexivity. Qed.

Lemma extract_returned (os : Pipeline.OS) (w : Pipeline.World os) (table : list RawRecord) :
  Pipeline.read_csv os (Pipeline.data_path w) (Pipeline.files w)
    = Pipeline.Returned table ->
  Pipeline.extract os w
    = Some (Pipeline.Returned (List.length (Store.heap (Pipeline.etl w))),
            Pipeline.mkWorld (Pipeline.data_path w)
              (Store.mkState (Store.heap (Pipeline.etl w) ++ [Store.RawFrame table])
                             (Some (List.length (Store.heap (Pipeline.etl w))))
                             (Store.processed_data (Pipeline.etl w)))
              (Pipeline.files w)).
Proof. intro H. unfold Pipeline.extract. rewrite H. reflexivity. Qed.

(** X21.  [extract]: when the file is read, the frame is a new object,
    [self.raw_data] refers to it, and nothing else changes; when the file
    is missing, FileNotFoundError is raised with the path in the message;
    any other failure is raised as Exception("Error extracting data:
    ..."); after a failure [self.raw_data] is what it was before. *)
Theorem extract_outcomes (os : Pipeline.OS) (w : Pipeline.World os) :
  (forall table : list RawRecord,
      Pipeline.read_csv os (Pipeline.data_path w) (Pipeline.files w)
        = Pipeline.Returned table ->
      exists (l : Store.loc) (w' : Pipeline.World os),
        Pipeline.extract os w = Some (Pipeline.Returned l, w') /\
        nth_error (Store.heap (Pipeline.etl w)) l = None /\
        nth_error (Store.heap (Pipeline.etl w')) l = Some (Store.RawFrame table) /\
        Store.raw_data (Pipeline.etl w') = Some l /\
        Store.processed_data (Pipeline.etl w') = Store.processed_data (Pipeline.etl w) /\
        Store.preserved (Pipeline.etl w) (Pipeline.etl w') /\
        Pipeline.files w' = Pipeline.files w) /\
  (forall msg : string,
      Pipeline.read_csv os (Pipeline.data_path w) (Pipeline.files w)
        = Pipeline.Raised (Pipeline.FileNotFoundError msg) ->
      Pipeline.extract os w
        = Some (Pipeline.Raised
                  (Pipeline.FileNotFoundError
                     ("Data file not found at " ++ Pipeline.data_path w)), w)) /\
  (forall e : Pipeline.io_exn,
      Pipeline.read_csv os (Pipeline.data_path w) (Pipeline.files w)
        = Pipeline.Raised e ->
      (forall msg, e <> Pipeline.FileNotFoundError msg) ->
      Pipeline.extract os w
        = Some (Pipeline.Raised
                  (Pipeline.Exception
                     ("Error extracting data: " ++ Pipeline.str e)), w)).
Proof.
  split; [|split].
  - intros table H. eexists. eexists. split; [apply extract_returned; exact H|].
    cbn [Pipeline.etl Pipeline.files Store.heap Store.raw_data Store.processed_data].
    split; [apply nth_error_None; lia|]. split; [apply nth_error_snoc_new|].
    repeat split. intros k f Hk. cbn [Pipeline.etl Store.heap].
    apply nth_error_snoc_old. exact Hk.
  - intros msg H. unfold Pipeline.extract. rewrite H. reflexivity.
  - intros e H Hne. unfold Pipeline.extract. rewrite H.
    destruct e; try reflexivity. exfalso. exact (Hne msg eq_refl).
Qed.

Lemma extract_outcomes_witness :
  (exists (l : Store.loc) (w' : Pipeline.World memory_os),
      Pipeline.extract memory_os sample_world = Some (Pipeline.Returned l, w') /\
      Store.raw_data (Pipeline.etl w') = Some l) /\
  Pipeline.extract memory_os bare_world
    = Some (Pipeline.Raised
              (Pipeline.FileNotFoundError "Data file not found at data/insurance.csv"),
            bare_world).
Proof.
  split.
  - destruct (proj1 (extract_outcomes memory_os sample_world) scenario eq_refl)
      as (l & w' & Hrun & _ & _ & Hraw & _).
    exists l, w'. split; assumption.
  - apply (proj1 (proj2 (extract_outcomes memory_os bare_world))
                 "[Errno 2] No such file or directory"%string).
    reflexivity.
Defined.

(** X22.  [load] without a frame on an instance that has no processed
    data raises ValueError before any file system call: nothing is
    created or written. *)
Theorem load_without_processed_data
  (os : Pipeline.OS) (w : Pipeline.World os) (output_path : string) :
  Store.processed_data (Pipeline.etl w) = None ->
  Pipeline.load os output_path None w
    = Some (Pipeline.Raised
              (Pipeline.Builtin
                 (ValueError "No processed data available. Run transform() first.")),
            w).
Proof.
  intro H. unfold Pipeline.load, Pipeline.bind, Pipeline.lift,
    Pipeline.get_processed_data. cbv beta. rewrite H.
  unfold Pipeline.raise. rewrite world_eta. reflexivity.
Qed.

Lemma load_without_processed_data_witness :
  Pipeline.load memory_os "out/processed.csv" None sample_world
    = Some (Pipeline.Raised
              (Pipeline.Builtin
                 (ValueError "No processed data available. Run transform() first.")),
            sample_world).
Proof. apply (load_without_processed_data memory_os sample_world). reflexivity. Defined.

Lemma forallb_rev {A : Type} (f : A -> bool) (l : list A) :
  forallb f (rev l) = forallb f l.
Proof.
  induction l as [|x l IH]; simpl; [reflexivity|].
  rewrite forallb_app, IH. simpl. rewrite andb_true_r. apply andb_comm.
Qed.

Lemma drop_while_all (f : ascii -> bool) (l : list ascii) :
  forallb f l = true -> Pipeline.drop_while f l = [].
Proof.
  induction l as [|c l IH]; simpl; [reflexivity|].
  destruct (f c); simpl; [exact IH | discriminate].
Qed.

Lemma dirname_no_slash (path : string) :
  no_slash path -> Pipeline.dirname path = ""%string.
Proof.
  unfold no_slash, Pipeline.dirname. intro H.
  rewrite drop_while_all by (rewrite forallb_rev; exact H). reflexivity.
Qed.

Lemma lift_returned (os : Pipeline.OS) (A : Type) (m : Store.M A)
  (w : Pipeline.World os) (a : A) (st : Store.State) :
  m (Pipeline.etl w) = Some (Ok a, st) ->
  Pipeline.lift m w
    = Some (Pipeline.Returned a,
            Pipeline.mkWorld (Pipeline.data_path w) st (Pipeline.files w)).
Proof. intro H. unfold Pipeline.lift. rewrite H. reflexivity. Qed.

(** X23.  With a file system whose [makedirs('')] raises
    FileNotFoundError, [load] to a path without a directory part fails
    with FileNotFoundError although there is a frame to write: the
    directory name of such a path is empty, and nothing is written. *)
Theorem load_bare_file_name
  (os : Pipeline.OS) (w : Pipeline.World os) (output_path : string)
  (data : option Store.loc) (l : Store.loc) :
  Pipeline.makedirs_rejects_empty os ->
  no_slash output_path ->
  data = Some l \/ (data = None /\ Store.processed_data (Pipeline.etl w) = Some l) ->
  exists msg : string,
    Pipeline.load os output_path data w
      = Some (Pipeline.Raised (Pipeline.FileNotFoundError msg), w).
Proof.
  intros Hos Hpath Hdata. destruct (Hos (Pipeline.files w)) as (msg & Hmk).
  exists msg. unfold Pipeline.load.
  rewrite (dirname_no_slash _ Hpath).
  assert (Hres : forall k : Store.loc -> Pipeline.IO os unit,
            (forall l0, k l0 w = Some (Pipeline.Raised (Pipeline.FileNotFoundError msg), w)) ->
            Pipeline.bind
              match data with
              | Some l0 => Pipeline.ret l0
              | None =>
                  Pipeline.bind (Pipeline.lift Pipeline.get_processed_data)
                    (fun processed =>
                       match processed with
                       | Some l0 => Pipeline.ret l0
                       | None =>
                           Pipeline.raise
                             (Pipeline.Builtin
                                (ValueError
                                   "No processed data available. Run transform() first."))
                       end)
              end k w
            = Some (Pipeline.Raised (Pipeline.FileNotFoundError msg), w)).
  { intros k Hk. destruct Hdata as [-> | [-> Hp]].
    - unfold Pipeline.bind, Pipeline.ret. apply Hk.
    - unfold Pipeline.bind, Pipeline.lift, Pipeline.get_processed_data. cbv beta.
      rewrite Hp. unfold Pipeline.ret. rewrite world_eta. apply Hk. }
  apply Hres. intro l0.
  unfold Pipeline.bind, Pipeline.call_makedirs. rewrite Hmk.
  rewrite world_eta. reflexivity.
Qed.

Lemma load_bare_file_name_witness :
  exists msg : string,
    Pipeline.load memory_os "processed.csv" (Some 0%nat) sample_world
      = Some (Pipeline.Raised (Pipeline.FileNotFoundError msg), sample_world).
Proof.
  apply (load_bare_file_name memory_os sample_world "processed.csv" (Some 0%nat) 0%nat).
  - intro fs. eexists. reflexivity.
  - reflexivity.
  - left. reflexivity.
Defined.

(** The first two steps of [run_pipeline] on a readable file. *)
Lemma extract_then_transform
  (os : Pipeline.OS) (w : Pipeline.World os) (table : list RawRecord) :
  Pipeline.read_csv os (Pipeline.data_path w) (Pipeline.files w)
    = Pipeline.Returned table ->
  exists (raw l : Store.loc) (st : Store.State),
    Pipeline.bind (Pipeline.extract os)
                  (fun _ => Pipeline.lift (Store.transform None)) w
      = Some (Pipeline.Returned l,
              Pipeline.mkWorld (Pipeline.data_path w) st (Pipeline.files w)) /\
    nth_error (Store.heap st) raw = Some (Store.RawFrame table) /\
    nth_error (Store.heap st) l = Some (Store.Processed (transform table)) /\
    nth_error (Store.heap (Pipeline.etl w)) l = None /\
    Store.raw_data st = Some raw /\
    Store.processed_data st = Some l /\
    Store.preserved (Pipeline.etl w) st.
Proof.
  intro Hread. unfold Pipeline.bind. rewrite (extract_returned os w table Hread).
  set (raw := List.length (Store.heap (Pipeline.etl w))).
  set (st0 := Store.mkState (Store.heap (Pipeline.etl w) ++ [Store.RawFrame table])
                            (Some raw) (Store.processed_data (Pipeline.etl w))).
  assert (Hraw : nth_error (Store.heap st0) raw = Some (Store.RawFrame table))
    by apply nth_error_snoc_new.
  destruct (transform_run st0 raw table Hraw) as (l & st & Hrun & Hb & Hl & Hp & Hd & Hr).
  rewrite <- (transform_none_from st0 raw table eq_refl Hraw) in Hrun.
  exists raw, l, st. split.
  - rewrite (lift_returned os _ _ _ l st); [reflexivity | exact Hrun].
  - split; [apply Hp; exact Hraw|]. split; [exact Hl|].
    split; [apply nth_error_None; unfold st0 in Hb; simpl in Hb;
            rewrite length_app in Hb; simpl in Hb; lia|].
    split; [rewrite Hr; reflexivity|]. split; [exact Hd|].
    intros k f Hk. apply Hp. unfold st0. cbn [Store.heap].
    apply nth_error_snoc_old. exact Hk.
Qed.

(** X24.  [run_pipeline] on a readable file returns a new object with
    the processed form of the rows read.  Without an output path, or
    with the empty string, the file system is left as it is; with a path,
    and when [makedirs] and [to_csv] succeed, the directory of the path
    is created first and that same processed frame is written to the
    path. *)
Theorem run_pipeline_on_readable_file
  (os : Pipeline.OS) (w : Pipeline.World os) (table : list RawRecord) :
  Pipeline.read_csv os (Pipeline.data_path w) (Pipeline.files w)
    = Pipeline.Returned table ->
  (forall output_path : option string,
      output_path = None \/ output_path = Some ""%string ->
      exists (l : Store.loc) (w' : Pipeline.World os),
        Pipeline.run_pipeline os output_path w
          = Some (Pipeline.Returned (Some l), w') /\
        nth_error (Store.heap (Pipeline.etl w')) l
          = Some (Store.Processed (transform table)) /\
        nth_error (Store.heap (Pipeline.etl w)) l = None /\
        Store.preserved (Pipeline.etl w) (Pipeline.etl w') /\
        Pipeline.files w' = Pipeline.files w) /\
  (forall (path : string) (fs1 fs2 : Pipeline.FS os),
      path <> ""%string ->
      Pipeline.makedirs os (Pipeline.dirname path) (Pipeline.files w)
        = (Pipeline.Returned tt, fs1) ->
      Pipeline.to_csv os path (Store.Processed (transform table)) fs1
        = (Pipeline.Returned tt, fs2) ->
      exists (l : Store.loc) (w' : Pipeline.World os),
        Pipeline.run_pipeline os (Some path) w
          = Some (Pipeline.Returned (Some l), w') /\
        nth_error (Store.heap (Pipeline.etl w')) l
          = Some (Store.Processed (transform table)) /\
        nth_error (Store.heap (Pipeline.etl w)) l = None /\
        Store.preserved (Pipeline.etl w) (Pipeline.etl w') /\
        Pipeline.files w' = fs2).
Proof.
  intro Hread.
  destruct (extract_then_transform os w table Hread)
    as (raw & l & st & Hrun & _ & Hl & Hnew & _ & Hd & Hp).
  unfold Pipeline.bind in Hrun. split.
  - intros output_path Hout. exists l. eexists. split.
    + unfold Pipeline.run_pipeline, Pipeline.bind.
      destruct (Pipeline.extract os w) as [[[a|e] w0]|]; try discriminate.
      rewrite Hrun.
      destruct Hout as [-> | ->]; cbn [String.eqb]; unfold Pipeline.ret;
        unfold Pipeline.lift, Pipeline.get_processed_data;
        cbn [Pipeline.etl Pipeline.data_path Pipeline.files]; rewrite Hd;
        reflexivity.
    + cbn [Pipeline.etl Pipeline.files]. repeat split; assumption.
  - intros path fs1 fs2 Hne Hmk Hcsv. exists l. eexists. split.
    + unfold Pipeline.run_pipeline, Pipeline.bind.
      destruct (Pipeline.extract os w) as [[[a|e] w0]|]; try discriminate.
      rewrite Hrun.
      destruct (String.eqb_spec path "") as [E|_]; [contradiction|].
      unfold Pipeline.load, Pipeline.bind, Pipeline.lift at 1,
        Pipeline.get_processed_data.
      cbn [Pipeline.etl Pipeline.data_path Pipeline.files]. rewrite Hd.
      unfold Pipeline.ret, Pipeline.call_makedirs.
      cbn [Pipeline.etl Pipeline.data_path Pipeline.files]. rewrite Hmk.
      unfold Pipeline.lift at 1, Store.load.
      cbn [Pipeline.etl Pipeline.data_path Pipeline.files]. rewrite Hl.
      unfold Pipeline.call_to_csv.
      cbn [Pipeline.etl Pipeline.data_path Pipeline.files]. rewrite Hcsv.
      unfold Pipeline.lift. cbn [Pipeline.etl Pipeline.data_path Pipeline.files].
      rewrite Hd. reflexivity.
    + cbn [Pipeline.etl Pipeline.files]. repeat split; assumption.
Qed.

Lemma run_pipeline_on_readable_file_witness :
  exists (l : Store.loc) (w' : Pipeline.World memory_os),
    Pipeline.run_pipeline memory_os (Some "data/processed_insurance.csv"%string)
                          sample_world
      = Some (Pipeline.Returned (Some l), w') /\
    Pipeline.files w'
      = ("data/processed_insurance.csv"%string, Store.Processed (transform scenario))
          :: Pipeline.files sample_world.
Proof.
  destruct (proj2 (run_pipeline_on_readable_file memory_os sample_world scenario eq_refl)
              "data/processed_insurance.csv"%string
              (Pipeline.files sample_world)
              (("data/processed_insurance.csv"%string,
                Store.Processed (transform scenario)) :: Pipeline.files sample_world))
    as (l & w' & Hrun & _ & _ & _ & Hfs).
  - discriminate.
  - reflexivity.
  - reflexivity.
  - exists l, w'. split; assumption.
Defined.

(** X25.  When the data file is missing, [run_pipeline] stops at
    [extract]: it raises FileNotFoundError, no frame is created, both
    references of the instance keep their values and the file system is
    untouched, whatever the output path. *)
Theorem run_pipeline_missing_file
  (os : Pipeline.OS) (w : Pipeline.World os) (output_path : option string)
  (msg : string) :
  Pipeline.read_csv os (Pipeline.data_path w) (Pipeline.files w)
    = Pipeline.Raised (Pipeline.FileNotFoundError msg) ->
  Pipeline.run_pipeline os output_path w
    = Some (Pipeline.Raised
              (Pipeline.FileNotFoundError
                 ("Data file not found at " ++ Pipeline.data_path w)), w).
Proof.
  intro H. unfold Pipeline.run_pipeline, Pipeline.bind, Pipeline.extract.
  rewrite H. reflexivity.
Qed.

Lemma run_pipeline_missing_file_witness :
  Pipeline.run_pipeline memory_os (Some "data/processed_insurance.csv"%string) bare_world
    = Some (Pipeline.Raised
              (Pipeline.FileNotFoundError "Data file not found at data/insurance.csv"),
            bare_world).
Proof.
  apply (run_pipeline_missing_file memory_os bare_world _
           "[Errno 2] No such file or directory"%string).
  reflexivity.
Defined.

(** ** analyze_smoker_impact: the sign of the uplift *)

(** X26.  With at least one smoker and one non-smoker and a positive
    non-smoker average, [difference] and [percentage_increase] are
    finite and have the same sign: the percentage is positive exactly
    when the smoker average exceeds the non-smoker average, and it is
    100 times the difference divided by the non-smoker average. *)
Theorem smoker_uplift_sign (data : ProcessedFrame) :
  let impact := analyze_smoker_impact data in
  (0 < smoker_count impact)%Z -> (0 < non_smoker_count impact)%Z ->
  forall s n : Q,
    smoker_avg impact = Finite s -> non_smoker_avg impact = Finite n -> 0 < n ->
    exists d pct : Q,
      difference impact = Finite d /\ percentage_increase impact = Finite pct /\
      d == s - n /\ pct == d / n * 100 /\
      (0 < pct <-> n < s) /\ (0 < d <-> n < s).
Proof.
  intros impact Hs Hn s n Es En Hpos. subst impact.
  unfold analyze_smoker_impact in *. cbn [smoker_avg non_smoker_avg difference
    percentage_increase smoker_count non_smoker_count] in *.
  rewrite Es, En. cbn [fsub fneg fadd fdiv fmul].
  assert (Hz : Qeq_bool n 0 = false).
  { destruct (Qeq_bool n 0) eqn:E; [|reflexivity]. apply Qeq_bool_iff in E. lra. }
  rewrite Hz. cbn [fadd fmul].
  exists (s + - n), ((s / n + - (1)) * 100). split; [reflexivity|]. split; [reflexivity|].
  assert (Hq : s / n * n == s) by (field; lra).
  split; [ring|]. split; [field; lra|].
  assert (Hiff : 1 < s / n <-> n < s).
  { split; intro H.
    - rewrite <- Hq. nra.
    - apply Qlt_shift_div_l; lra. }
  split; split; intro H; try lra;
    first [apply Hiff; lra | apply Hiff in H; lra].
Qed.

Lemma smoker_uplift_sign_witness :
  exists d pct : Q,
    difference (analyze_smoker_impact (transform scenario)) = Finite d /\
    percentage_increase (analyze_smoker_impact (transform scenario)) = Finite pct /\
    0 < pct.
Proof.
  destruct (smoker_uplift_sign (transform scenario) eq_refl eq_refl
              (20000 / 1) (4500 / 2) eq_refl eq_refl eq_refl)
    as (d & pct & Hd & Hp & _ & _ & Hsign & _).
  exists d, pct. split; [exact Hd|]. split; [exact Hp|]. apply Hsign. reflexivity.
Defined.

(** ** main: the analyzer after the pipeline *)

Lemma load_keeps_store
  (os : Pipeline.OS) (path : string) (w w' : Pipeline.World os)
  (r : Pipeline.outcome unit) :
  Pipeline.load os path None w = Some (r, w') ->
  Pipeline.etl w' = Pipeline.etl w.
Proof.
  unfold Pipeline.load, Pipeline.bind, Pipeline.lift, Pipeline.get_processed_data,
    Pipeline.raise, Pipeline.ret, Pipeline.call_makedirs, Pipeline.call_to_csv,
    Store.load.
  cbn [Pipeline.etl Pipeline.data_path Pipeline.files].
  destruct (Store.processed_data (Pipeline.etl w)) as [l|].
  - cbn [Pipeline.etl Pipeline.data_path Pipeline.files].
    destruct (Pipeline.makedirs os (Pipeline.dirname path) (Pipeline.files w))
      as [[[]|e] fs].
    + cbn [Pipeline.etl Pipeline.data_path Pipeline.files].
      destruct (nth_error (Store.heap (Pipeline.etl w)) l) as [frame|].
      * cbn [Pipeline.etl Pipeline.data_path Pipeline.files].
        destruct (Pipeline.to_csv os path frame fs) as [res fs'].
        intro H. injection H as _ <-. reflexivity.
      * discriminate.
    + intro H. injection H as _ <-. reflexivity.
  - intro H. injection H as _ <-. reflexivity.
Qed.

(** What [run_pipeline] returns on a readable file, whatever the output
    path, when it returns. *)
Lemma run_pipeline_returned
  (os : Pipeline.OS) (w w' : Pipeline.World os) (table : list RawRecord)
  (output_path : option string) (v : option Store.loc) :
  Pipeline.read_csv os (Pipeline.data_path w) (Pipeline.files w)
    = Pipeline.Returned table ->
  Pipeline.run_pipeline os output_path w = Some (Pipeline.Returned v, w') ->
  exists l : Store.loc,
    v = Some l /\
    nth_error (Store.heap (Pipeline.etl w')) l
      = Some (Store.Processed (transform table)) /\
    nth_error (Store.heap (Pipeline.etl w)) l = None /\
    Store.preserved (Pipeline.etl w) (Pipeline.etl w').
Proof.
  intros Hread Hrun.
  destruct (extract_then_transform os w table Hread)
    as (raw & l & st & Hstep & _ & Hl & Hnew & _ & Hd & Hp).
  unfold Pipeline.bind in Hstep.
  unfold Pipeline.run_pipeline, Pipeline.bind in Hrun.
  destruct (Pipeline.extract os w) as [[[a|e] w0]|]; try discriminate.
  rewrite Hstep in Hrun.
  set (w1 := Pipeline.mkWorld (Pipeline.data_path w) st (Pipeline.files w)) in *.
  assert (Hlast : forall w2 : Pipeline.World os,
            Pipeline.etl w2 = st ->
            Pipeline.lift Pipeline.get_processed_data w2
              = Some (Pipeline.Returned v, w') ->
            v = Some l /\ Pipeline.etl w' = st).
  { intros w2 E. unfold Pipeline.lift, Pipeline.get_processed_data.
    rewrite E, Hd. intro H. injection H as <- <-. split; reflexivity. }
  assert (Hend : v = Some l /\ Pipeline.etl w' = st).
  { destruct output_path as [path|].
    - destruct (String.eqb path "").
      + apply (Hlast w1); [reflexivity | exact Hrun].
      + destruct (Pipeline.load os path None w1) as [[[[]|e] w2]|] eqn:Eload;
          try discriminate.
        apply load_keeps_store in Eload.
        apply (Hlast w2); [exact Eload | exact Hrun].
    - apply (Hlast w1); [reflexivity | exact Hrun]. }
  destruct Hend as [-> Hst]. exists l. rewrite Hst. repeat split; assumption.
Qed.

(** X27.  As in [main], which runs the pipeline with an output path and
    builds the analyzer on what it returns: whatever the output path,
    when [run_pipeline] returns on a readable file it returns a frame,
    a new object holding the processed form of the rows of the file; the
    key insights, the smoker impact and the factor tables of the
    analyzer built on it are those of [transform] applied to the file,
    and running them changes no object. *)
Theorem analyzer_after_pipeline
  (os : Pipeline.OS) (w w' : Pipeline.World os) (table : list RawRecord)
  (output_path : option string) (v : option Store.loc) (factor : string) :
  Pipeline.read_csv os (Pipeline.data_path w) (Pipeline.files w)
    = Pipeline.Returned table ->
  Pipeline.run_pipeline os output_path w = Some (Pipeline.Returned v, w') ->
  exists l : Store.loc,
    v = Some l /\
    nth_error (Store.heap (Pipeline.etl w)) l = None /\
    Store.get_key_insights (Store.mkAnalyzer l) (Pipeline.etl w')
      = Some (get_key_insights (transform table), Pipeline.etl w') /\
    Store.analyze_smoker_impact (Store.mkAnalyzer l) (Pipeline.etl w')
      = Some (Ok (analyze_smoker_impact (transform table)), Pipeline.etl w') /\
    Store.analyze_charges_by_factor (Store.mkAnalyzer l) factor (Pipeline.etl w')
      = Some (analyze_charges_by_factor (transform table) factor, Pipeline.etl w').
Proof.
  intros Hread Hrun.
  destruct (run_pipeline_returned os w w' table output_path v Hread Hrun)
    as (l & -> & Hl & Hnew & _).
  exists l. split; [reflexivity|]. split; [exact Hnew|].
  pose proof (self_data_found (Pipeline.etl w') (Store.mkAnalyzer l)
                (transform table) Hl) as Hself.
  unfold Store.get_key_insights, Store.analyze_smoker_impact,
    Store.analyze_charges_by_factor, Store.bind.
  rewrite Hself. repeat split.
Qed.

Lemma analyzer_after_pipeline_witness :
  exists (l : Store.loc) (w' : Pipeline.World memory_os),
    Pipeline.run_pipeline memory_os (Some "data/processed_insurance.csv"%string)
                          sample_world
      = Some (Pipeline.Returned (Some l), w') /\
    Store.analyze_smoker_impact (Store.mkAnalyzer l) (Pipeline.etl w')
      = Some (Ok (analyze_smoker_impact (transform scenario)), Pipeline.etl w').
Proof.
  assert (Hrun : exists (l : Store.loc) (w' : Pipeline.World memory_os),
            Pipeline.run_pipeline memory_os
              (Some "data/processed_insurance.csv"%string) sample_world
            = Some (Pipeline.Returned (Some l), w')).
  { eexists. eexists. vm_compute. reflexivity. }
  destruct Hrun as (l & w' & Hrun). exists l, w'. split; [exact Hrun|].
  destruct (analyzer_after_pipeline memory_os sample_world w' scenario
              (Some "data/processed_insurance.csv"%string) (Some l) "smoker"%string
              eq_refl Hrun)
    as (l0 & E & _ & _ & Himpact & _).
  injection E as <-. exact Himpact.
Defined.

(** ** get_data_summary *)

Lemma missing_plus_keyed (c : Column) (rs : list ProcessedRecord) :
  (List.length (filter (Pipeline.isnull c) rs) + List.length (keys_of c rs)
   = List.length rs)%nat.
Proof.
  induction rs as [|r rs IH]; simpl; [reflexivity|].
  unfold Pipeline.isnull at 1. destruct (group_key c r); simpl; lia.
Qed.

(** X28.  [get_data_summary] raises ValueError when nothing has been
    processed.  After [transform] it reports the number of processed
    rows and eleven features, each of them either numeric or
    categorical: six numeric and five categorical ones for a file with
    rows, and, for a file with a header line only, whose columns were
    read as objects, [is_smoker] as the one numeric feature and the ten
    others as categorical.  For every column the number of missing
    values, added to the group counts of [analyze_charges_by_factor] for
    that column, gives the number of rows; the seven raw columns and
    [is_smoker] have no missing value. *)
Theorem data_summary_accounts_for_rows
  (T : Type) (dtypes : ProcessedFrame -> T) (st : Store.State) :
  (Store.processed_data st = None ->
   Pipeline.get_data_summary dtypes st
     = Some (Raise (ValueError "No processed data available. Run transform() first."),
             st)) /\
  (forall (l : Store.loc) (data : list RawRecord),
      Store.processed_data st = Some l ->
      nth_error (Store.heap st) l = Some (Store.Processed (transform data)) ->
      exists summary : Pipeline.DataSummary T,
        Pipeline.get_data_summary dtypes st = Some (Ok summary, st) /\
        Pipeline.total_records summary
          = Z.of_nat (List.length (rows (transform data))) /\
        Pipeline.total_features summary = 11%Z /\
        (forall c : Column,
            In (column_name c) (Pipeline.numeric_features summary)
            <-> ~ In (column_name c) (Pipeline.categorical_features summary)) /\
        (data <> [] ->
         Pipeline.numeric_features summary = numeric_names /\
         Pipeline.categorical_features summary
           = ["sex"; "smoker"; "region"; "bmi_category"; "age_group"]%string) /\
        (data = [] ->
         Pipeline.numeric_features summary = ["is_smoker"]%string /\
         Pipeline.categorical_features summary
           = ["age"; "sex"; "bmi"; "children"; "smoker"; "region"; "charges";
              "bmi_category"; "age_group"; "charges_per_person"]%string) /\
        forall (c : Column) (missing : Z),
          In (column_name c, missing) (Pipeline.missing_values summary) ->
          (missing + total_count (groupby_charges (transform data) c)
           = Pipeline.total_records summary)%Z /\
          (never_null c = true -> missing = 0%Z)).
Proof.
  split.
  - intro H. unfold Pipeline.get_data_summary, Store.bind, Pipeline.get_processed_data.
    rewrite H. reflexivity.
  - intros l data Hp Hl. eexists. split.
    + unfold Pipeline.get_data_summary, Store.bind, Pipeline.get_processed_data.
      rewrite Hp. rewrite (load_found _ _ _ Hl). reflexivity.
    + cbn [Pipeline.total_records Pipeline.total_features Pipeline.numeric_features
           Pipeline.categorical_features Pipeline.missing_values Pipeline.data_summary].
      split; [reflexivity|]. split; [reflexivity|].
      split; [|split; [|split]].
      * intro c. destruct data as [|r0 rest]; destruct c;
          vm_compute; intuition discriminate.
      * intro Hne. destruct data as [|r0 rest]; [contradiction|].
        split; reflexivity.
      * intros ->. split; reflexivity.
      * intros c missing Hin. rewrite in_map_iff in Hin.
        destruct Hin as (c' & E & _). injection E as Ec <-.
        assert (c' = c) by (destruct c', c; simpl in Ec; congruence). subst c'.
        assert (Hsum : total_count (groupby_charges (transform data) c)
                       = Z.of_nat (List.length (keys_of c (rows (transform data))))).
        { rewrite groupby_total_count. apply sizes_sum_keys.
          - apply group_index_NoDup, transform_consistent.
          - intro k. apply group_index_cover, transform_consistent. }
        pose proof (missing_plus_keyed c (rows (transform data))) as Hacc.
        change (map derive (dropna data)) with (rows (transform data)).
        split; [rewrite Hsum; lia|].
        intro Hn. pose proof (never_null_total data c Hn) as Hall.
        rewrite Hsum in Hall. lia.
Qed.

Lemma data_summary_accounts_for_rows_witness :
  exists summary : Pipeline.DataSummary unit,
    Pipeline.get_data_summary (fun _ => tt) processed_store
      = Some (Ok summary, processed_store) /\
    Pipeline.total_records summary = 3%Z /\
    Pipeline.numeric_features summary = numeric_names.
Proof.
  destruct (proj2 (data_summary_accounts_for_rows unit (fun _ => tt) processed_store)
              0%nat scenario eq_refl eq_refl)
    as (summary & Hrun & Htotal & _ & _ & Hsix & _).
  exists summary. split; [exact Hrun|]. split; [exact Htotal|].
  apply Hsix. discriminate.
Defined.
